(** * GTID and collection index bookkeeping: a shallow embedding

  The definitions below follow [src/mongo/db/gtid.cpp] and the index
  accessors of [src/mongo/db/collection.h].  [uint64_t] values are 64-bit
  machine words, [int] values are 32-bit machine words read as signed
  numbers, and the byte buffers written by [memcpy] are lists of bytes. *)

From Stdlib Require Import ZArith List Lia Bool Sorted Permutation.
From coqutil Require Import Word.Interface Word.Properties Word.Naive.
From coqutil Require Import Byte Word.LittleEndianList Z.bitblast.
Import ListNotations.
Local Open Scope Z_scope.

(** ** Machine integers *)

(** [uint64_t] and [int] (32 bits, two's complement). *)
Abbreviation u64 := Naive.word64.
Abbreviation int := Naive.word32.

#[local] Existing Instance Naive.word64_ok.
#[local] Existing Instance Naive.word32_ok.

Definition U64 (z : Z) : u64 := word.of_Z z.
Definition Int (z : Z) : int := word.of_Z z.

Declare Scope u64_scope.
Delimit Scope u64_scope with u64.
Infix "|'" := word.or (at level 50, left associativity) : u64_scope.
Infix "&'" := word.and (at level 40, left associativity) : u64_scope.
Infix ">>'" := word.sru (at level 40, left associativity) : u64_scope.
Infix "<<'" := word.slu (at level 40, left associativity) : u64_scope.

(** ** Assertions

  [verify(c)] throws when [c] is false.  [dassert(c)] is [verify(c)] in a
  debug build and expands to nothing in a release build; [dbg] says which
  build runs.  A failed assertion is [None]. *)

Definition verify (c : bool) : option unit :=
if c then Some tt else None.

Definition dassert (dbg : bool) (c : bool) : option unit :=
if dbg then verify c else Some tt.

Notation "x <- a ;; b" :=
(match a with Some x => b | None => None end)
(at level 61, a at next level, right associativity).
Notation "a ;;; b" :=
(match a with Some _ => b | None => None end)
(at level 61, right associativity).

(** ** Byte buffers *)

(** The byte order in which the host lays out a [uint64_t] in memory. *)
Inductive byte_order : Type := LittleEndian | BigEndian.

Definition sizeof_uint64_t : nat := 8.

(** [memcpy(pos, &x, sizeof(uint64_t))]: the eight bytes of [x] as they sit
  in memory. *)
Definition store64 (host : byte_order) (x : u64) : list byte :=
match host with
| LittleEndian => le_split sizeof_uint64_t (word.unsigned x)
| BigEndian => rev (le_split sizeof_uint64_t (word.unsigned x))
end.

(** [*(uint64_t * )pos]: the word whose memory image is the first eight
  bytes at [pos]. *)
Definition load64 (host : byte_order) (pos : list byte) : u64 :=
match host with
| LittleEndian => U64 (le_combine (firstn sizeof_uint64_t pos))
| BigEndian => U64 (le_combine (rev (firstn sizeof_uint64_t pos)))
end.

(** ** GTID *)

(** [SWAP64(x)] *)
Definition SWAP64 (x : u64) : u64 :=
((x &' U64 0xff00000000000000) >>' U64 56 |'
 (x &' U64 0x00ff000000000000) >>' U64 40 |'
 (x &' U64 0x0000ff0000000000) >>' U64 24 |'
 (x &' U64 0x000000ff00000000) >>' U64 8 |'
 (x &' U64 0x00000000ff000000) <<' U64 8 |'
 (x &' U64 0x0000000000ff0000) <<' U64 24 |'
 (x &' U64 0x000000000000ff00) <<' U64 40 |'
 (x &' U64 0x00000000000000ff) <<' U64 56)%u64.

Module GTID.

(** [GTID::GTID(uint64_t primarySeqNo, uint64_t GTSeqNo)] is the record
    constructor. *)
Record t : Type := GTID { _primarySeqNo : u64; _GTSeqNo : u64 }.

(** [GTID::GTID()] *)
Definition GTID_default : t :=
  {| _primarySeqNo := U64 0; _GTSeqNo := U64 0 |}.

(** [int GTID::cmp(GTID a, GTID b)] *)
Definition cmp (a b : t) : Z :=
  if negb (word.eqb (_primarySeqNo a) (_primarySeqNo b)) then
    (if word.ltu (_primarySeqNo a) (_primarySeqNo b) then -1 else 1)
  else if word.eqb (_GTSeqNo a) (_GTSeqNo b) then 0
  else (if word.ltu (_GTSeqNo a) (_GTSeqNo b) then -1 else 1).

(** [uint32_t GTID::GTIDBinarySize()] *)
Definition GTIDBinarySize : nat := 2 * sizeof_uint64_t.

(** [GTID::GTID(const char* binData)].  The source reads sixteen bytes
    without looking at the size of the buffer; a shorter buffer is an
    out-of-bounds read, here [None]. *)
Definition GTID_binData (host : byte_order) (binData : list byte) : option t :=
  if (length binData <? GTIDBinarySize)%nat then None
  else
    let pos := binData in
    let swappedPrim := load64 host pos in
    let pos := skipn sizeof_uint64_t pos in
    let swappedSec := load64 host pos in
    Some {| _primarySeqNo := SWAP64 swappedPrim;
            _GTSeqNo := SWAP64 swappedSec |}.

(** [void GTID::serializeBinaryData(char* binData)]: the bytes written to
    [binData]. *)
Definition serializeBinaryData (host : byte_order) (g : t) : list byte :=
  let prim := SWAP64 (_primarySeqNo g) in
  let sec := SWAP64 (_GTSeqNo g) in
  store64 host prim ++ store64 host sec.

(** [void GTID::inc()] *)
Definition inc (g : t) : t :=
  {| _primarySeqNo := _primarySeqNo g;
     _GTSeqNo := word.add (_GTSeqNo g) (U64 1) |}.

(** [void GTID::inc_primary()] *)
Definition inc_primary (g : t) : t :=
  {| _primarySeqNo := word.add (_primarySeqNo g) (U64 1);
     _GTSeqNo := U64 0 |}.

(** The order that [cmp] decides. *)
Definition lt (a b : t) : Prop := cmp a b < 0.
Definition le (a b : t) : Prop := cmp a b <= 0.

End GTID.

Abbreviation GTID := GTID.t.

(** The GTID [(p, s)]. *)
Definition gtid (p s : Z) : GTID := GTID.GTID (U64 p) (U64 s).

(** ** GTIDSet

  [_liveGTIDs] and [_unappliedGTIDs] are ordered sets of GTIDs, ordered by
  [GTID::cmp]; the set is kept as the strictly ascending list of its
  elements. *)
Module GTIDSet.

Definition t : Type := list GTID.

Definition empty : t := [].

(** [s.size()] *)
Definition size (s : t) : nat := length s.

(** [s.insert(g)]: nothing changes when an element equal to [g] is
    there. *)
Fixpoint insert (g : GTID) (s : t) : t :=
  match s with
  | [] => [g]
  | h :: r =>
      if GTID.cmp g h <? 0 then g :: s
      else if GTID.cmp h g <? 0 then h :: insert g r
      else s
  end.

(** [s.erase(g)] *)
Fixpoint erase (g : GTID) (s : t) : t :=
  match s with
  | [] => []
  | h :: r => if GTID.cmp h g =? 0 then r else h :: erase g r
  end.

(** [*(s.begin())], the smallest element.  The source dereferences
    [begin()] only after testing [size() != 0]; on the empty set the
    value is immaterial. *)
Definition begin (s : t) : GTID := hd GTID.GTID_default s.

(** The representation invariant: strictly ascending. *)
Definition ok (s : t) : Prop := StronglySorted GTID.lt s.

End GTIDSet.

(** ** GTIDManager

  Every member function runs between [_lock.lock()] and [_lock.unlock()],
  so each is one atomic step on the manager's state. *)
Module GTIDManager.

Record t : Type := Build {
  _nextLiveGTID : GTID;
  _minLiveGTID : GTID;
  _liveGTIDs : GTIDSet.t;
  _nextUnappliedGTID : GTID;
  _minUnappliedGTID : GTID;
  _unappliedGTIDs : GTIDSet.t
}.

(** [GTIDManager::GTIDManager(GTID lastGTID)].  The members that the
    constructor does not assign are default constructed. *)
Definition GTIDManager (lastGTID : GTID) : t :=
  let nextLiveGTID := GTID.inc lastGTID in
  {| _nextLiveGTID := nextLiveGTID;
     _minLiveGTID := nextLiveGTID;
     _liveGTIDs := GTIDSet.empty;
     _nextUnappliedGTID := GTID.GTID_default;
     _minUnappliedGTID := GTID.GTID_default;
     _unappliedGTIDs := GTIDSet.empty |}.

(** [GTID GTIDManager::getGTIDForPrimary()]: the returned GTID and the
    new state. *)
Definition getGTIDForPrimary (m : t) : GTID * t :=
  let ret := _nextLiveGTID m in
  (ret,
   {| _nextLiveGTID := GTID.inc (_nextLiveGTID m);
      _minLiveGTID := _minLiveGTID m;
      _liveGTIDs := GTIDSet.insert ret (_liveGTIDs m);
      _nextUnappliedGTID := _nextUnappliedGTID m;
      _minUnappliedGTID := _minUnappliedGTID m;
      _unappliedGTIDs := _unappliedGTIDs m |}).

(** [void GTIDManager::noteLiveGTIDDone(GTID gtid)] *)
Definition noteLiveGTIDDone (dbg : bool) (gtid : GTID) (m : t) : option t :=
  dassert dbg (GTID.cmp gtid (_minLiveGTID m) >=? 0) ;;;
  dassert dbg (0 <? GTIDSet.size (_liveGTIDs m))%nat ;;;
  let liveGTIDs := GTIDSet.erase gtid (_liveGTIDs m) in
  if GTID.cmp (_minLiveGTID m) gtid =? 0 then
    let minLiveGTID :=
      if (GTIDSet.size liveGTIDs =? 0)%nat then _nextLiveGTID m
      else GTIDSet.begin liveGTIDs in
    Some {| _nextLiveGTID := _nextLiveGTID m;
            _minLiveGTID := minLiveGTID;
            _liveGTIDs := liveGTIDs;
            _nextUnappliedGTID := _nextUnappliedGTID m;
            _minUnappliedGTID := minLiveGTID;
            _unappliedGTIDs := _unappliedGTIDs m |}
  else
    Some {| _nextLiveGTID := _nextLiveGTID m;
            _minLiveGTID := _minLiveGTID m;
            _liveGTIDs := liveGTIDs;
            _nextUnappliedGTID := _nextUnappliedGTID m;
            _minUnappliedGTID := _minUnappliedGTID m;
            _unappliedGTIDs := _unappliedGTIDs m |}.

(** [void GTIDManager::noteGTIDAdded(GTID gtid)] *)
Definition noteGTIDAdded (dbg : bool) (gtid : GTID) (m : t) : option t :=
  dassert dbg (GTID.cmp (_nextLiveGTID m) (_minLiveGTID m) =? 0) ;;;
  dassert dbg (GTID.cmp (_nextLiveGTID m) gtid <=? 0) ;;;
  Some {| _nextLiveGTID := gtid;
          _minLiveGTID := gtid;
          _liveGTIDs := _liveGTIDs m;
          _nextUnappliedGTID := _nextUnappliedGTID m;
          _minUnappliedGTID := _minUnappliedGTID m;
          _unappliedGTIDs := _unappliedGTIDs m |}.

(** [void GTIDManager::noteApplyingGTID(GTID gtid)] *)
Definition noteApplyingGTID (dbg : bool) (gtid : GTID) (m : t) : option t :=
  dassert dbg (GTID.cmp gtid (_minUnappliedGTID m) >? 0) ;;;
  dassert dbg (GTID.cmp gtid (_nextUnappliedGTID m) >=? 0) ;;;
  let minUnappliedGTID :=
    if (GTIDSet.size (_unappliedGTIDs m) =? 0)%nat then gtid
    else _minUnappliedGTID m in
  Some {| _nextLiveGTID := _nextLiveGTID m;
          _minLiveGTID := _minLiveGTID m;
          _liveGTIDs := _liveGTIDs m;
          _nextUnappliedGTID := GTID.inc gtid;
          _minUnappliedGTID := minUnappliedGTID;
          _unappliedGTIDs := GTIDSet.insert gtid (_unappliedGTIDs m) |}.

(** [void GTIDManager::noteGTIDApplied(GTID gtid)] *)
Definition noteGTIDApplied (dbg : bool) (gtid : GTID) (m : t) : option t :=
  dassert dbg (GTID.cmp gtid (_minUnappliedGTID m) >=? 0) ;;;
  dassert dbg (0 <? GTIDSet.size (_unappliedGTIDs m))%nat ;;;
  let unappliedGTIDs := GTIDSet.erase gtid (_unappliedGTIDs m) in
  let minUnappliedGTID :=
    if GTID.cmp (_minUnappliedGTID m) gtid =? 0 then
      if (GTIDSet.size unappliedGTIDs =? 0)%nat then _nextUnappliedGTID m
      else GTIDSet.begin unappliedGTIDs
    else _minUnappliedGTID m in
  Some {| _nextLiveGTID := _nextLiveGTID m;
          _minLiveGTID := _minLiveGTID m;
          _liveGTIDs := _liveGTIDs m;
          _nextUnappliedGTID := _nextUnappliedGTID m;
          _minUnappliedGTID := minUnappliedGTID;
          _unappliedGTIDs := unappliedGTIDs |}.

(** [void GTIDManager::getMins(GTID* minLiveGTID, GTID* minUnappliedGTID)] *)
Definition getMins (m : t) : GTID * GTID :=
  (_minLiveGTID m, _minUnappliedGTID m).

(** [void GTIDManager::resetManager(GTID lastGTID)] *)
Definition resetManager (dbg : bool) (lastGTID : GTID) (m : t) : option t :=
  dassert dbg (GTIDSet.size (_liveGTIDs m) =? 0)%nat ;;;
  let nextLiveGTID := GTID.inc_primary lastGTID in
  Some {| _nextLiveGTID := nextLiveGTID;
          _minLiveGTID := nextLiveGTID;
          _liveGTIDs := _liveGTIDs m;
          _nextUnappliedGTID := _nextUnappliedGTID m;
          _minUnappliedGTID := _minUnappliedGTID m;
          _unappliedGTIDs := _unappliedGTIDs m |}.

End GTIDManager.


(** ** Runs of a GTIDManager *)

(** The mutating member functions. *)
Inductive op : Type :=
| GetGTIDForPrimary
| NoteLiveGTIDDone (gtid : GTID)
| NoteGTIDAdded (gtid : GTID)
| NoteApplyingGTID (gtid : GTID)
| NoteGTIDApplied (gtid : GTID)
| ResetManager (lastGTID : GTID).

(** One call: the state it leaves and the GTID it returns, if it returns
    one; [None] when an assertion of the call fails. *)
Definition step (dbg : bool) (o : op) (m : GTIDManager.t)
  : option (GTIDManager.t * option GTID) :=
  match o with
  | GetGTIDForPrimary =>
      let (ret, m') := GTIDManager.getGTIDForPrimary m in Some (m', Some ret)
  | NoteLiveGTIDDone g =>
      m' <- GTIDManager.noteLiveGTIDDone dbg g m ;; Some (m', None)
  | NoteGTIDAdded g =>
      m' <- GTIDManager.noteGTIDAdded dbg g m ;; Some (m', None)
  | NoteApplyingGTID g =>
      m' <- GTIDManager.noteApplyingGTID dbg g m ;; Some (m', None)
  | NoteGTIDApplied g =>
      m' <- GTIDManager.noteGTIDApplied dbg g m ;; Some (m', None)
  | ResetManager g =>
      m' <- GTIDManager.resetManager dbg g m ;; Some (m', None)
  end.

(** The precondition of a call: its assertions hold, which is to say that
    the debug build runs it to the end. *)
Definition requires (o : op) (m : GTIDManager.t) : bool :=
  match step true o m with Some _ => true | None => false end.

(** [UINT64_MAX] *)
Definition UINT64_MAX : Z := 2 ^ 64 - 1.

(** The call is an allocation that makes [_GTSeqNo] of [_nextLiveGTID]
    wrap around to zero. *)
Definition wraps (o : op) (m : GTIDManager.t) : bool :=
  match o with
  | GetGTIDForPrimary =>
      word.eqb (GTID._GTSeqNo (GTIDManager._nextLiveGTID m)) (U64 UINT64_MAX)
  | _ => false
  end.

Definition is_reset (o : op) : bool :=
  match o with ResetManager _ => true | _ => false end.

(** The calls made on a primary by the transactions it runs. *)
Definition is_primary_op (o : op) : bool :=
  match o with
  | GetGTIDForPrimary | NoteLiveGTIDDone _ => true
  | _ => false
  end.

(** A call that meets its precondition and does not wrap the counter. *)
Definition regular (o : op) (m : GTIDManager.t) : bool :=
  requires o m && negb (wraps o m).

(** What a run records of each call: the call, what it returned and the
    state it left. *)
Record event : Type := Event {
  ev_op : op;
  ev_ret : option GTID;
  ev_state : GTIDManager.t
}.

(** [exec dbg allowed m tr m']: starting in [m], the calls of [tr], each
    allowed in the state it is made in, run one after the other and end in
    [m']. *)
Inductive exec (dbg : bool) (allowed : op -> GTIDManager.t -> bool)
  : GTIDManager.t -> list event -> GTIDManager.t -> Prop :=
| exec_nil m : exec dbg allowed m [] m
| exec_step m o r m1 tr m2 :
    allowed o m = true ->
    step dbg o m = Some (m1, r) ->
    exec dbg allowed m1 tr m2 ->
    exec dbg allowed m (Event o r m1 :: tr) m2.

(** The GTIDs that the calls of a run returned, in the order of the
    calls. *)
Fixpoint allocations (tr : list event) : list GTID :=
  match tr with
  | [] => []
  | e :: r =>
      match ev_ret e with
      | Some g => g :: allocations r
      | None => allocations r
      end
  end.

(** [_minLiveGTID] after each call of a run. *)
Definition minLives (tr : list event) : list GTID :=
  map (fun e => GTIDManager._minLiveGTID (ev_state e)) tr.

(** The runner of [exec]: the calls [ops] made one after the other from
    [m], each checked to be allowed; the events and the last state. *)
Fixpoint run (dbg : bool) (allowed : op -> GTIDManager.t -> bool)
  (ops : list op) (m : GTIDManager.t) : option (list event * GTIDManager.t) :=
  match ops with
  | [] => Some ([], m)
  | o :: rest =>
      if allowed o m then
        s <- step dbg o m ;;
        t <- run dbg allowed rest (fst s) ;;
        Some (Event o (snd s) (fst s) :: fst t, snd t)
      else None
  end.

(** A call that meets its precondition and is not [resetManager]: the
    manager stays with one primary. *)
Definition no_reset (o : op) (m : GTIDManager.t) : bool :=
  requires o m && negb (is_reset o).

(** Any call but [resetManager], whether or not its assertions hold. *)
Definition not_reset (o : op) (m : GTIDManager.t) : bool :=
  negb (is_reset o).

(** The calls under which the watermarks of the live side move forward: no
    [resetManager], no allocation that wraps the counter, [noteGTIDAdded]
    under its precondition; every other call with or without its own. *)
Definition one_primary (o : op) (m : GTIDManager.t) : bool :=
  match o with
  | GetGTIDForPrimary => negb (wraps o m)
  | NoteGTIDAdded _ => requires o m
  | ResetManager _ => false
  | NoteLiveGTIDDone _ | NoteApplyingGTID _ | NoteGTIDApplied _ => true
  end.

(** The calls on the live side as they are meant to be made: an allocation
    that does not wrap the counter; [noteLiveGTIDDone], [noteGTIDAdded] and
    [resetManager] under their preconditions.  [noteApplyingGTID] and
    [noteGTIDApplied] work on the unapplied side, and are taken with or
    without their preconditions. *)
Definition live_pre (o : op) (m : GTIDManager.t) : bool :=
  match o with
  | GetGTIDForPrimary => negb (wraps o m)
  | NoteLiveGTIDDone _ | NoteGTIDAdded _ | ResetManager _ => requires o m
  | NoteApplyingGTID _ | NoteGTIDApplied _ => true
  end.

(** What the invariant of the live side needs of a call: no wrap of the
    counter, and the preconditions of [noteGTIDAdded] and [resetManager]. *)
Definition keeps_live (o : op) (m : GTIDManager.t) : bool :=
  match o with
  | GetGTIDForPrimary => negb (wraps o m)
  | NoteGTIDAdded _ | ResetManager _ => requires o m
  | NoteLiveGTIDDone _ | NoteApplyingGTID _ | NoteGTIDApplied _ => true
  end.

(** Only the calls of a primary, whether or not their assertions hold. *)
Definition primary_only (o : op) (m : GTIDManager.t) : bool :=
  is_primary_op o.

(** ** Invariants of a GTIDManager *)

(** [minLiveGTID <= every live GTID <= nextLiveGTID], and
    [minLiveGTID == nextLiveGTID] when no GTID is live. *)
Definition live_invariant (m : GTIDManager.t) : Prop :=
  Forall (fun g => GTID.le (GTIDManager._minLiveGTID m) g)
    (GTIDManager._liveGTIDs m) /\
  Forall (fun g => GTID.le g (GTIDManager._nextLiveGTID m))
    (GTIDManager._liveGTIDs m) /\
  (GTIDManager._liveGTIDs m = [] ->
   GTIDManager._minLiveGTID m = GTIDManager._nextLiveGTID m).

(** When some GTID is live, [_minLiveGTID] is one of the live GTIDs. *)
Definition min_is_live (m : GTIDManager.t) : Prop :=
  GTIDManager._liveGTIDs m <> [] ->
  In (GTIDManager._minLiveGTID m) (GTIDManager._liveGTIDs m).

(** Every live GTID is strictly below [_nextLiveGTID]. *)
Definition live_below_next (m : GTIDManager.t) : Prop :=
  Forall (fun g => GTID.lt g (GTIDManager._nextLiveGTID m))
    (GTIDManager._liveGTIDs m).

Definition manager_inv (m : GTIDManager.t) : Prop :=
  GTIDSet.ok (GTIDManager._liveGTIDs m) /\
  live_invariant m /\ min_is_live m /\ live_below_next m.

(** ** The order of GTIDs and of their encodings *)

Definition prim (g : GTID) : Z := word.unsigned (GTID._primarySeqNo g).
Definition seq (g : GTID) : Z := word.unsigned (GTID._GTSeqNo g).

(** The pair read as one 128-bit number, [primarySeqNo] in the upper
    half. *)
Definition value (g : GTID) : Z := prim g * 2 ^ 64 + seq g.

(** The result of a three-way comparison as [cmp] reports it. *)
Definition sign (c : comparison) : Z :=
  match c with Lt => -1 | Eq => 0 | Gt => 1 end.

(** Byte-wise lexicographic comparison of two buffers, bytes compared as
    unsigned numbers (the order of [memcmp]). *)
Fixpoint lex_compare (a b : list byte) : comparison :=
  match a, b with
  | [], [] => Eq
  | [], _ :: _ => Lt
  | _ :: _, [] => Gt
  | x :: a', y :: b' =>
      match byte.compare x y with
      | Eq => lex_compare a' b'
      | c => c
      end
  end.

(** The number that a buffer spells when read most significant byte
    first. *)
Fixpoint be_value (bs : list byte) : Z :=
  match bs with
  | [] => 0
  | b :: r => byte.unsigned b * 2 ^ (8 * Z.of_nat (length r)) + be_value r
  end.

(** The bit mask [0xff << k]. *)
Definition mask (k : Z) : Z := Z.shiftl (Z.ones 8) k.

(** ** Some states of a GTIDManager *)

(** A manager made one step before the last value of the counter. *)
Definition last_seq_manager : GTIDManager.t :=
  GTIDManager.GTIDManager (gtid 0 (UINT64_MAX - 1)).

(** A state in which [_minLiveGTID] is below the only live GTID. *)
Definition stale_min_manager : GTIDManager.t :=
  {| GTIDManager._nextLiveGTID := gtid 5 10;
     GTIDManager._minLiveGTID := gtid 5 8;
     GTIDManager._liveGTIDs := [gtid 5 9];
     GTIDManager._nextUnappliedGTID := GTID.GTID_default;
     GTIDManager._minUnappliedGTID := GTID.GTID_default;
     GTIDManager._unappliedGTIDs := GTIDSet.empty |}.

(** The calls of scenario S6. *)
Definition S6_ops : list op :=
  [GetGTIDForPrimary; GetGTIDForPrimary;
   NoteLiveGTIDDone (gtid 5 8); NoteLiveGTIDDone (gtid 5 9);
   ResetManager (gtid 5 9)].

(** The run of scenario S6 in a debug build: its events and last state. *)
Definition S6_run : list event * GTIDManager.t :=
  match run true regular S6_ops (GTIDManager.GTIDManager (gtid 5 7)) with
  | Some p => p
  | None => ([], GTIDManager.GTIDManager (gtid 5 7))
  end.

(** Two allocations, then the later of the two GTIDs completes first. *)
Definition later_done_ops : list op :=
  [GetGTIDForPrimary; GetGTIDForPrimary; NoteLiveGTIDDone (gtid 5 9)].

Definition later_done_run : list event * GTIDManager.t :=
  match run true primary_only later_done_ops (GTIDManager.GTIDManager (gtid 5 7)) with
  | Some p => p
  | None => ([], GTIDManager.GTIDManager (gtid 5 7))
  end.

(** Two allocations, made at the end of the counter. *)
Definition wrapping_ops : list op := [GetGTIDForPrimary; GetGTIDForPrimary].

Definition wrapping_run : list event * GTIDManager.t :=
  match run true no_reset wrapping_ops last_seq_manager with
  | Some p => p
  | None => ([], last_seq_manager)
  end.

(** A state in which the only live GTID is [_nextLiveGTID] itself. *)
Definition live_at_next_manager : GTIDManager.t :=
  {| GTIDManager._nextLiveGTID := gtid 5 8;
     GTIDManager._minLiveGTID := gtid 5 8;
     GTIDManager._liveGTIDs := [gtid 5 8];
     GTIDManager._nextUnappliedGTID := GTID.GTID_default;
     GTIDManager._minUnappliedGTID := GTID.GTID_default;
     GTIDManager._unappliedGTIDs := GTIDSet.empty |}.

(** Two allocations, a [noteGTIDApplied] that nothing announced, the
    earlier GTID completes, one more allocation; a release build. *)
Definition busy_ops : list op :=
  [GetGTIDForPrimary; GetGTIDForPrimary; NoteGTIDApplied (gtid 1 1);
   NoteLiveGTIDDone (gtid 5 8); GetGTIDForPrimary].

Definition busy_run : list event * GTIDManager.t :=
  match run false live_pre busy_ops (GTIDManager.GTIDManager (gtid 5 7)) with
  | Some p => p
  | None => ([], GTIDManager.GTIDManager (gtid 5 7))
  end.

(** A release build: two allocations, [noteLiveGTIDDone] called twice on
    the first GTID and once on the second, then two GTIDs taken one after
    the other through [noteGTIDAdded], [noteApplyingGTID] and
    [noteGTIDApplied], and a third allocation. *)
Definition release_ops : list op :=
  [GetGTIDForPrimary; GetGTIDForPrimary;
   NoteLiveGTIDDone (gtid 5 8); NoteLiveGTIDDone (gtid 5 8);
   NoteLiveGTIDDone (gtid 5 9);
   NoteGTIDAdded (gtid 5 12); NoteApplyingGTID (gtid 5 12);
   NoteGTIDApplied (gtid 5 12);
   NoteGTIDAdded (gtid 5 13); NoteApplyingGTID (gtid 5 13);
   NoteGTIDApplied (gtid 5 13);
   GetGTIDForPrimary].

Definition release_run : list event * GTIDManager.t :=
  match run false one_primary release_ops (GTIDManager.GTIDManager (gtid 5 7)) with
  | Some p => p
  | None => ([], GTIDManager.GTIDManager (gtid 5 7))
  end.

(** A release build in which [noteGTIDAdded] is given a GTID below
    [_nextLiveGTID], between two allocations. *)
Definition added_below_ops : list op :=
  [GetGTIDForPrimary; NoteLiveGTIDDone (gtid 5 8);
   NoteGTIDAdded (gtid 5 3); GetGTIDForPrimary].

Definition added_below_run : list event * GTIDManager.t :=
  match run false not_reset added_below_ops (GTIDManager.GTIDManager (gtid 5 7)) with
  | Some p => p
  | None => ([], GTIDManager.GTIDManager (gtid 5 7))
  end.

(** A release build in which [noteGTIDAdded] is called while a GTID is
    live, and [noteLiveGTIDDone] then on the GTID that was added. *)
Definition added_with_live_ops : list op :=
  [GetGTIDForPrimary; NoteGTIDAdded (gtid 5 12); NoteLiveGTIDDone (gtid 5 12)].

Definition added_with_live_run : list event * GTIDManager.t :=
  match run false not_reset added_with_live_ops
          (GTIDManager.GTIDManager (gtid 5 7)) with
  | Some p => p
  | None => ([], GTIDManager.GTIDManager (gtid 5 7))
  end.

(** Two allocations and nothing else. *)
Definition two_allocations_run : list event * GTIDManager.t :=
  match run true primary_only wrapping_ops (GTIDManager.GTIDManager (gtid 5 7)) with
  | Some p => p
  | None => ([], GTIDManager.GTIDManager (gtid 5 7))
  end.

(** ** Collections: flags and the index vector *)

Module Collection.

(** [static const int NIndexesMax = 64] *)
Definition NIndexesMax : int := Int 64.

(** Flags for write operations. *)
Definition NO_LOCKTREE : u64 := U64 1.
Definition NO_UNIQUE_CHECKS : u64 := U64 2.
Definition KEYS_UNAFFECTED_HINT : u64 := U64 4.
Definition NO_PK_UNIQUE_CHECKS : u64 := U64 8.

End Collection.

(** [INT_MAX] *)
Definition INT_MAX : Z := 2 ^ 31 - 1.

(** The conversion of a [size_t] to [int], as in [(int) _indexes.size()]:
    the low 32 bits. *)
Definition int_of_size (n : nat) : int := Int (Z.of_nat n).

(** The conversion of an [int] to [size_t], as in [_indexes[idxNo]]. *)
Definition size_of_int (i : int) : nat := Z.to_nat (word.signed i mod 2 ^ 64).

(** [v[i]] on a vector: [None] is an access outside the vector, which the
    language leaves undefined. *)
Definition vector_at {A : Type} (v : list A) (i : nat) : option A :=
  nth_error v i.

Module CollectionBase.
Section WithIndexDetails.

(** What an index is plays no part here. *)
Context {IndexDetails : Type}.

(** The members of [Collection] and [CollectionBase] that the index
    accessors read.  [_indexes] is a vector of shared pointers, each to the
    [IndexDetails] listed here. *)
Record t : Type := Build {
  _indexBuildInProgress : bool;
  _nIndexes : int;
  _indexes : list IndexDetails
}.

(** [bool indexBuildInProgress() const] *)
Definition indexBuildInProgress (c : t) : bool := _indexBuildInProgress c.

(** [int nIndexes() const] *)
Definition nIndexes (c : t) : int := _nIndexes c.

(** [int nIndexesBeingBuilt() const] *)
Definition nIndexesBeingBuilt (c : t) : option int :=
  (if _indexBuildInProgress c then
     verify (word.eqb (word.add (_nIndexes c) (Int 1))
               (int_of_size (length (_indexes c))))
   else
     verify (word.eqb (_nIndexes c) (int_of_size (length (_indexes c))))) ;;;
  Some (int_of_size (length (_indexes c))).

(** [IndexDetails& idx(int idxNo) const]: [None] when an assertion fails,
    else the outcome of the access to the vector. *)
Definition idx (c : t) (idxNo : int) : option (option IndexDetails) :=
  verify (word.lts idxNo Collection.NIndexesMax) ;;;
  verify (negb (word.lts idxNo (Int 0)) &&
          word.lts idxNo (int_of_size (length (_indexes c)))) ;;;
  Some (vector_at (_indexes c) (size_of_int idxNo)).

End WithIndexDetails.
Arguments t : clear implicits.
End CollectionBase.

(** A collection with two committed indexes and a third being built; the
    indexes are stood for by numbers. *)
Definition building_collection : CollectionBase.t nat :=
  CollectionBase.Build true (Int 2) [10%nat; 20%nat; 30%nat].

(** ** The secondary side of a GTIDManager *)

(** The calls made on a secondary: a GTID of the primary is added to the
    oplog, starts to be applied, has been applied. *)
Definition is_secondary_op (o : op) : bool :=
  match o with
  | NoteGTIDAdded _ | NoteApplyingGTID _ | NoteGTIDApplied _ => true
  | _ => false
  end.

(** The call makes [_GTSeqNo] of [_nextUnappliedGTID] wrap around to
    zero. *)
Definition wraps_unapplied (o : op) : bool :=
  match o with
  | NoteApplyingGTID g => word.eqb (GTID._GTSeqNo g) (U64 UINT64_MAX)
  | _ => false
  end.

(** A call of a secondary that meets its precondition and does not wrap
    the counter. *)
Definition secondary_regular (o : op) (m : GTIDManager.t) : bool :=
  requires o m && is_secondary_op o && negb (wraps_unapplied o).

(** The GTIDs passed to [noteApplyingGTID], in the order of the calls. *)
Fixpoint applying (tr : list event) : list GTID :=
  match tr with
  | [] => []
  | e :: r =>
      match ev_op e with
      | NoteApplyingGTID g => g :: applying r
      | _ => applying r
      end
  end.

(** [_minUnappliedGTID] after each call of a run. *)
Definition minUnapplieds (tr : list event) : list GTID :=
  map (fun e => GTIDManager._minUnappliedGTID (ev_state e)) tr.

(** The unapplied side of the invariant: [minUnappliedGTID] is at most
    every unapplied GTID and is one of them when there is one, every
    unapplied GTID is below [nextUnappliedGTID], and the two watermarks
    coincide when nothing is unapplied. *)
Definition unapplied_invariant (m : GTIDManager.t) : Prop :=
  Forall (fun g => GTID.le (GTIDManager._minUnappliedGTID m) g)
    (GTIDManager._unappliedGTIDs m) /\
  Forall (fun g => GTID.lt g (GTIDManager._nextUnappliedGTID m))
    (GTIDManager._unappliedGTIDs m) /\
  (GTIDManager._unappliedGTIDs m = [] ->
   GTIDManager._minUnappliedGTID m = GTIDManager._nextUnappliedGTID m) /\
  (GTIDManager._unappliedGTIDs m <> [] ->
   In (GTIDManager._minUnappliedGTID m) (GTIDManager._unappliedGTIDs m)).

(** On a secondary no GTID is live. *)
Definition no_live (m : GTIDManager.t) : Prop :=
  GTIDManager._liveGTIDs m = [] /\
  GTIDManager._minLiveGTID m = GTIDManager._nextLiveGTID m.

Definition secondary_inv (m : GTIDManager.t) : Prop :=
  GTIDSet.ok (GTIDManager._unappliedGTIDs m) /\
  unapplied_invariant m /\ no_live m.

(** A secondary that adds and applies [(5, 8)], [(5, 9)] and [(5, 11)],
    the second one before the first is done. *)
Definition secondary_ops : list op :=
  [NoteGTIDAdded (gtid 5 8); NoteApplyingGTID (gtid 5 8);
   NoteGTIDAdded (gtid 5 9); NoteApplyingGTID (gtid 5 9);
   NoteGTIDApplied (gtid 5 8); NoteGTIDApplied (gtid 5 9);
   NoteGTIDAdded (gtid 5 11); NoteApplyingGTID (gtid 5 11)].

Definition secondary_run : list event * GTIDManager.t :=
  match run true secondary_regular secondary_ops
          (GTIDManager.GTIDManager (gtid 5 7)) with
  | Some p => p
  | None => ([], GTIDManager.GTIDManager (gtid 5 7))
  end.

(** ** More of the collection interface *)

(** [bool isMultikey(int i) const], on the value of [_multiKeyIndexBits].
    [1ULL << i] is defined for [0 <= i < 64] only; [None] stands for a
    shift the language leaves undefined. *)
Definition isMultikey (_multiKeyIndexBits : u64) (i : int) : option bool :=
  if (0 <=? word.signed i) && (word.signed i <? 64) then
    let mask := word.slu (U64 1) (U64 (word.signed i)) in
    Some (negb (word.eqb (word.and _multiKeyIndexBits mask) (U64 0)))
  else None.

Module Stats.

(** [struct Collection::Stats] *)
Record t : Type := Build {
  count : u64;
  size : u64;
  storageSize : u64;
  nIndexes : u64;
  indexSize : u64;
  indexStorageSize : u64
}.

(** [Stats()] *)
Definition Stats : t :=
  {| count := U64 0; size := U64 0; storageSize := U64 0;
     nIndexes := U64 0; indexSize := U64 0; indexStorageSize := U64 0 |}.

(** [Stats& operator+=(const Stats &o)]: the value of [*this]
    afterwards. *)
Definition plus_assign (s o : t) : t :=
  {| count := word.add (count s) (count o);
     size := word.add (size s) (size o);
     storageSize := word.add (storageSize s) (storageSize o);
     nIndexes := word.add (nIndexes s) (nIndexes o);
     indexSize := word.add (indexSize s) (indexSize o);
     indexStorageSize := word.add (indexStorageSize s) (indexStorageSize o) |}.

End Stats.

(** The loop [for (it = v.begin(); it != v.end(); ++it) if (found( *it))
    return it - v.begin();]: the distance of the first entry that [found]
    accepts, [it] being the distance of the head of [rest]; [None] when the
    loop runs off the end. *)
Fixpoint scan {A : Type} (found : A -> bool) (rest : list A) (it : nat)
  : option nat :=
  match rest with
  | [] => None
  | index :: rest' => if found index then Some it else scan found rest' (S it)
  end.

Module IndexLookup.
Section WithIndexDetails.

Context {IndexDetails : Type}.

(** [index->isIdIndex()], which is not part of these sources. *)
Context (isIdIndex : IndexDetails -> bool).

(** [index == &idx]: the two are one and the same index. *)
Context (same : IndexDetails -> IndexDetails -> bool).

(** [int idxNo(const IndexDetails& idx) const]: [None] is the exception of
    [msgasserted(17229, ...)]. *)
Definition idxNo (c : CollectionBase.t IndexDetails) (idx : IndexDetails)
  : option int :=
  match scan (fun index => same index idx) (CollectionBase._indexes c) 0 with
  | Some n => Some (int_of_size n)
  | None => None
  end.

(** [int findIdIndex() const] *)
Definition findIdIndex (c : CollectionBase.t IndexDetails) : int :=
  match scan isIdIndex (CollectionBase._indexes c) 0 with
  | Some n => int_of_size n
  | None => Int (-1)
  end.

(** [index.keyPattern() == _pk], neither side being part of these
    sources. *)
Context (hasPKPattern : IndexDetails -> bool).

(** [IndexDetails &getPKIndex() const]: the outcome of the access to
    [_indexes[0]] and then of the assertion; [Some None] is an access
    outside the (empty) vector, [None] a failed assertion. *)
Definition getPKIndex (dbg : bool) (c : CollectionBase.t IndexDetails)
  : option (option IndexDetails) :=
  match vector_at (CollectionBase._indexes c) 0 with
  | None => Some None
  | Some idx => dassert dbg (hasPKPattern idx) ;;; Some (Some idx)
  end.

(** [bool isPKIndex(const IndexDetails &idx) const] *)
Definition isPKIndex (dbg : bool) (c : CollectionBase.t IndexDetails)
  (idx : IndexDetails) : option (option bool) :=
  r <- getPKIndex dbg c ;;
  match r with
  | None => Some None
  | Some pkIndex =>
      let isPK := same idx pkIndex in
      dassert dbg (Bool.eqb isPK (hasPKPattern idx)) ;;; Some (Some isPK)
  end.

End WithIndexDetails.
End IndexLookup.

(** A collection of three indexes on which [nat] equality tells indexes
    apart, the first being the primary key and the id index. *)
Definition three_indexes : CollectionBase.t nat :=
  CollectionBase.Build false (Int 3) [10%nat; 20%nat; 30%nat].

(** * Properties *)

(** ** The order of GTIDs *)

Lemma prim_range (g : GTID) : 0 <= prim g < 2 ^ 64.
Proof. apply word.unsigned_range. Qed.

Lemma seq_range (g : GTID) : 0 <= seq g < 2 ^ 64.
Proof. apply word.unsigned_range. Qed.

Lemma cmp_cases (a b : GTID) :
  GTID.cmp a b =
    if prim a =? prim b
    then (if seq a =? seq b then 0 else if seq a <? seq b then -1 else 1)
    else (if prim a <? prim b then -1 else 1).
Proof.
  unfold GTID.cmp, prim, seq.
  rewrite !word.unsigned_eqb, !word.unsigned_ltu.
  destruct (_ =? _); reflexivity.
Qed.

Lemma GTID_ext (a b : GTID) : prim a = prim b -> seq a = seq b -> a = b.
Proof.
  destruct a as [pa sa], b as [pb sb]; unfold prim, seq;
    cbn [GTID._primarySeqNo GTID._GTSeqNo].
  intros Hp Hs.
  apply word.unsigned_inj in Hp. apply word.unsigned_inj in Hs.
  congruence.
Qed.

Ltac cmp_lia :=
  repeat match goal with
    | |- context [?x =? ?y] => destruct (Z.eqb_spec x y)
    | |- context [?x <? ?y] => destruct (Z.ltb_spec x y)
    | |- context [?x <=? ?y] => destruct (Z.leb_spec x y)
    end;
  cbn in *; try reflexivity; try lia.

Lemma cmp_value (a b : GTID) : GTID.cmp a b = sign (value a ?= value b).
Proof.
  rewrite cmp_cases. unfold value, sign.
  pose proof (prim_range a); pose proof (prim_range b).
  pose proof (seq_range a); pose proof (seq_range b).
  destruct (Z.compare_spec (prim a * 2 ^ 64 + seq a) (prim b * 2 ^ 64 + seq b));
    cmp_lia.
Qed.

Lemma value_inj (a b : GTID) : value a = value b -> a = b.
Proof.
  unfold value; intros H.
  pose proof (prim_range a); pose proof (prim_range b).
  pose proof (seq_range a); pose proof (seq_range b).
  apply GTID_ext; lia.
Qed.

Lemma lt_value (a b : GTID) : GTID.lt a b <-> value a < value b.
Proof.
  unfold GTID.lt; rewrite cmp_value.
  destruct (Z.compare_spec (value a) (value b)); cbn; lia.
Qed.

Lemma le_value (a b : GTID) : GTID.le a b <-> value a <= value b.
Proof.
  unfold GTID.le; rewrite cmp_value.
  destruct (Z.compare_spec (value a) (value b)); cbn; lia.
Qed.

Lemma cmp_eq (a b : GTID) : GTID.cmp a b = 0 <-> a = b.
Proof.
  rewrite cmp_value. split.
  - destruct (Z.compare_spec (value a) (value b)); cbn; try lia.
    intros _. now apply value_inj.
  - intros ->. now rewrite Z.compare_refl.
Qed.

Lemma cmp_ltb (a b : GTID) : (GTID.cmp a b <? 0) = (value a <? value b).
Proof.
  rewrite cmp_value.
  destruct (Z.compare_spec (value a) (value b)); cbn [sign]; cmp_lia.
Qed.

(** C7. [GTID::cmp] decides the lexicographic order on the pair
    [(primarySeqNo, GTSeqNo)]: the result is negative exactly when the
    first GTID is lexicographically smaller, zero exactly when both
    components agree, and positive in every other case; it is one of -1, 0
    and 1. *)
Theorem cmp_lexicographic (a b : GTID) :
  (GTID.cmp a b < 0 <->
     prim a < prim b \/ (prim a = prim b /\ seq a < seq b)) /\
  (GTID.cmp a b = 0 <-> prim a = prim b /\ seq a = seq b) /\
  (GTID.cmp a b > 0 <->
     ~ (prim a < prim b \/ (prim a = prim b /\ seq a < seq b)) /\
     ~ (prim a = prim b /\ seq a = seq b)) /\
  (GTID.cmp a b = -1 \/ GTID.cmp a b = 0 \/ GTID.cmp a b = 1).
Proof.
  rewrite cmp_cases.
  destruct (Z.eqb_spec (prim a) (prim b)), (Z.eqb_spec (seq a) (seq b)),
    (Z.ltb_spec (seq a) (seq b)), (Z.ltb_spec (prim a) (prim b)); lia.
Qed.

(** ** The binary codec *)

Lemma unsigned_SWAP64 (x : u64) :
  word.unsigned (SWAP64 x) =
  let z := word.unsigned x in
  Z.lor (Z.lor (Z.lor (Z.lor (Z.lor (Z.lor (Z.lor
    (Z.shiftr (Z.land z (mask 56)) 56)
    (Z.shiftr (Z.land z (mask 48)) 40))
    (Z.shiftr (Z.land z (mask 40)) 24))
    (Z.shiftr (Z.land z (mask 32)) 8))
    (Z.shiftl (Z.land z (mask 24)) 8 mod 2 ^ 64))
    (Z.shiftl (Z.land z (mask 16)) 24 mod 2 ^ 64))
    (Z.shiftl (Z.land z (mask 8)) 40 mod 2 ^ 64))
    (Z.shiftl (Z.land z (mask 0)) 56 mod 2 ^ 64).
Proof.
  unfold SWAP64, U64.
  rewrite !word.unsigned_or_nowrap.
  rewrite !word.unsigned_sru_nowrap, !word.unsigned_slu, !word.unsigned_and_nowrap.
  all: rewrite ?word.unsigned_of_Z_nowrap by (cbv; split; congruence);
    try reflexivity.
  all: cbv; reflexivity.
Qed.

Lemma testbit_mask (k i : Z) :
  0 <= k -> Z.testbit (mask k) i = (k <=? i) && (i <? k + 8).
Proof.
  intros Hk. unfold mask.
  rewrite Z.shiftl_spec', Z.testbit_ones by lia.
  destruct (Z.ltb_spec i 0), (Z.leb_spec k i), (Z.leb_spec 0 (i - k)),
    (Z.ltb_spec (i - k) 8), (Z.ltb_spec i (k + 8)); cbn; try reflexivity; lia.
Qed.

Ltac decide_cmp :=
  repeat match goal with
    | |- context [?a <=? ?b] =>
        first [ replace (a <=? b) with true by (symmetry; apply Z.leb_le; lia)
              | replace (a <=? b) with false by (symmetry; apply Z.leb_gt; lia) ]
    | |- context [?a <? ?b] =>
        first [ replace (a <? b) with true by (symmetry; apply Z.ltb_lt; lia)
              | replace (a <? b) with false by (symmetry; apply Z.ltb_ge; lia) ]
    end.

(** [SWAP64] moves byte [k] to byte [7 - k]. *)
Lemma testbit_SWAP64 (x : u64) (k r : Z) :
  0 <= k < 8 -> 0 <= r < 8 ->
  Z.testbit (word.unsigned (SWAP64 x)) (8 * k + r) =
  Z.testbit (word.unsigned x) (8 * (7 - k) + r).
Proof.
  intros Hk Hr. rewrite unsigned_SWAP64. cbv zeta.
  rewrite !Z.lor_spec, !Z.testbit_mod_pow2, !Z.shiftr_spec', !Z.shiftl_spec',
    !Z.land_spec by lia.
  rewrite !testbit_mask by lia.
  assert (Hc : k = 0 \/ k = 1 \/ k = 2 \/ k = 3 \/ k = 4 \/ k = 5 \/ k = 6 \/ k = 7)
    by lia.
  repeat destruct Hc as [-> | Hc]; try subst k; decide_cmp; cbn [negb andb orb];
    rewrite ?andb_false_r, ?andb_true_r, ?orb_false_r, ?orb_false_l;
    f_equal; lia.
Qed.

Lemma split_bit_index (i : Z) :
  0 <= i < 64 -> exists k r, 0 <= k < 8 /\ 0 <= r < 8 /\ i = 8 * k + r.
Proof.
  intros Hi. exists (i / 8), (i mod 8).
  pose proof (Z.div_mod i 8 ltac:(lia)).
  pose proof (Z.mod_pos_bound i 8 ltac:(lia)).
  assert (0 <= i / 8 < 8)
    by (split; [apply Z.div_pos | apply Z.div_lt_upper_bound]; lia).
  lia.
Qed.

Lemma testbit_u64_high (x : u64) (i : Z) :
  64 <= i -> Z.testbit (word.unsigned x) i = false.
Proof.
  intros Hi. pose proof (word.unsigned_range x) as Hx.
  rewrite <- (Z.mod_small (word.unsigned x) (2 ^ 64)) by exact Hx.
  apply Z.mod_pow2_bits_high. lia.
Qed.

Lemma SWAP64_involutive (x : u64) : SWAP64 (SWAP64 x) = x.
Proof.
  apply word.unsigned_inj, Z.bits_inj'. intros i Hi.
  destruct (Z.lt_ge_cases i 64) as [Hlt | Hge].
  - destruct (split_bit_index i ltac:(lia)) as (k & r & Hk & Hr & ->).
    rewrite testbit_SWAP64 by lia.
    rewrite testbit_SWAP64 by lia.
    f_equal; lia.
  - now rewrite !testbit_u64_high.
Qed.

Lemma byte_of_Z_eq (a b : Z) :
  (forall i, 0 <= i < 8 -> Z.testbit a i = Z.testbit b i) ->
  byte.of_Z a = byte.of_Z b.
Proof.
  intros H. apply byte.unsigned_inj. rewrite !byte.unsigned_of_Z. unfold byte.wrap.
  apply Z.bits_inj'. intros i Hi.
  rewrite !Z.testbit_mod_pow2 by lia.
  destruct (Z.ltb_spec i 8); cbn; [apply H; lia | reflexivity].
Qed.

Lemma le_split_8 (z : Z) :
  le_split 8 z =
  map (fun c => byte.of_Z (Z.shiftr z c)) [0; 8; 16; 24; 32; 40; 48; 56].
Proof.
  cbv [le_split map].
  rewrite !Z.shiftr_shiftr by lia. cbn [Z.add Pos.add Pos.succ].
  rewrite Z.shiftr_0_r. reflexivity.
Qed.

(** On a little-endian host the memory image of [SWAP64(x)] is [x] most
    significant byte first. *)
Lemma le_split_SWAP64 (x : u64) :
  le_split 8 (word.unsigned (SWAP64 x)) = rev (le_split 8 (word.unsigned x)).
Proof.
  rewrite !le_split_8. cbn [map rev app].
  repeat match goal with |- _ :: _ = _ :: _ => f_equal end.
  all: apply byte_of_Z_eq; intros i Hi; rewrite !Z.shiftr_spec by lia.
  all: match goal with
       | |- Z.testbit _ (?i + ?c) = _ =>
           let k := eval cbv in (c / 8) in
           replace (i + c) with (8 * k + i) by lia;
           rewrite testbit_SWAP64 by lia; f_equal; lia
       end.
Qed.

Lemma length_store64 (host : byte_order) (x : u64) :
  length (store64 host x) = sizeof_uint64_t.
Proof.
  destruct host; cbn [store64];
    rewrite ?length_rev, length_le_split; reflexivity.
Qed.

Lemma load64_store64 (host : byte_order) (x : u64) (rest : list byte) :
  load64 host (store64 host x ++ rest) = x.
Proof.
  assert (Hf : firstn sizeof_uint64_t (store64 host x ++ rest) = store64 host x).
  { rewrite <- (length_store64 host x) at 1.
    rewrite firstn_app, Nat.sub_diag, firstn_all, firstn_O. apply app_nil_r. }
  unfold load64. rewrite Hf. destruct host; cbn [store64]; rewrite ?rev_involutive;
    rewrite le_combine_split; unfold U64, sizeof_uint64_t;
    apply word.unsigned_inj; rewrite word.unsigned_of_Z; unfold word.wrap;
    change (Z.of_nat 8 * 8) with 64; rewrite Z.mod_mod by lia;
    apply Z.mod_small, word.unsigned_range.
Qed.

Lemma be_value_range (bs : list byte) :
  0 <= be_value bs < 2 ^ (8 * Z.of_nat (length bs)).
Proof.
  induction bs as [| b r IH]; cbn [be_value length].
  - cbn. lia.
  - pose proof (byte.unsigned_range b) as Hb.
    replace (8 * Z.of_nat (S (length r))) with (8 + 8 * Z.of_nat (length r)) by lia.
    rewrite Z.pow_add_r by lia.
    set (N := 2 ^ (8 * Z.of_nat (length r))) in *. nia.
Qed.

Lemma be_value_app (l1 l2 : list byte) :
  be_value (l1 ++ l2) =
  be_value l1 * 2 ^ (8 * Z.of_nat (length l2)) + be_value l2.
Proof.
  induction l1 as [| b r IH]; cbn [be_value app length].
  - lia.
  - rewrite IH, length_app.
    replace (8 * Z.of_nat (length r + length l2))
      with (8 * Z.of_nat (length r) + 8 * Z.of_nat (length l2)) by lia.
    rewrite Z.pow_add_r by lia. ring.
Qed.

(** Most significant byte first, the lexicographic order of buffers of one
    length is the order of the numbers they spell. *)
Lemma lex_compare_be_value (a b : list byte) :
  length a = length b -> lex_compare a b = (be_value a ?= be_value b).
Proof.
  revert b; induction a as [| x a IH]; intros [| y b] Hlen; try discriminate.
  - reflexivity.
  - cbn [lex_compare be_value]. injection Hlen as Hlen. rewrite Hlen.
    pose proof (be_value_range a) as Ha. pose proof (be_value_range b) as Hb.
    rewrite Hlen in Ha.
    set (N := 2 ^ (8 * Z.of_nat (length b))) in *.
    unfold byte.compare.
    destruct (Z.compare_spec (byte.unsigned x) (byte.unsigned y)) as [He | Hl | Hg].
    + rewrite IH, He by exact Hlen.
      destruct (Z.compare_spec (be_value a) (be_value b)); symmetry;
        [apply Z.compare_eq_iff | apply Z.compare_lt_iff | apply Z.compare_gt_iff]; lia.
    + symmetry; apply Z.compare_lt_iff. nia.
    + symmetry; apply Z.compare_gt_iff. nia.
Qed.

Lemma be_value_rev_le_split (n : nat) (z : Z) :
  be_value (rev (le_split n z)) = z mod 2 ^ (8 * Z.of_nat n).
Proof.
  revert z; induction n as [| n IH]; intros z.
  - cbn. now rewrite Z.mod_1_r.
  - change (le_split (S n) z) with (byte.of_Z z :: le_split n (Z.shiftr z 8)).
    cbn [rev]. rewrite be_value_app, IH. cbn [be_value length].
    rewrite byte.unsigned_of_Z. unfold byte.wrap.
    rewrite Z.shiftr_div_pow2 by lia.
    replace (8 * Z.of_nat (S n)) with (8 + 8 * Z.of_nat n) by lia.
    rewrite Z.pow_add_r by lia.
    rewrite (Z.rem_mul_r z (2 ^ 8) (2 ^ (8 * Z.of_nat n))) by lia.
    cbn [Z.of_nat Z.mul]. change (2 ^ 0) with 1. change (8 * 1) with 8. lia.
Qed.

Lemma be_value_store64_SWAP64 (x : u64) :
  be_value (store64 LittleEndian (SWAP64 x)) = word.unsigned x.
Proof.
  cbn [store64]. unfold sizeof_uint64_t.
  rewrite le_split_SWAP64, be_value_rev_le_split.
  change (8 * Z.of_nat 8) with 64.
  apply Z.mod_small, word.unsigned_range.
Qed.

Lemma be_value_serializeBinaryData (g : GTID) :
  be_value (GTID.serializeBinaryData LittleEndian g) = value g.
Proof.
  unfold GTID.serializeBinaryData. cbv zeta.
  rewrite be_value_app, !be_value_store64_SWAP64, length_store64.
  reflexivity.
Qed.

Lemma length_serializeBinaryData (host : byte_order) (g : GTID) :
  length (GTID.serializeBinaryData host g) = GTID.GTIDBinarySize.
Proof.
  unfold GTID.serializeBinaryData. cbv zeta.
  rewrite length_app, !length_store64. reflexivity.
Qed.

(** C1. The binary codec of a GTID takes 16 bytes and round-trips:
    [GTIDBinarySize()] is 16, [serializeBinaryData] writes that many bytes,
    and [GTID(const char* )] reads back from them the GTID that was
    written, whatever the byte order of the host.  On a little-endian host
    the bytes are the two halves most significant byte first, so comparing
    two encodings byte by byte gives the result of [GTID::cmp] on the
    GTIDs. *)
Theorem GTID_binary_codec :
  GTID.GTIDBinarySize = 16%nat /\
  (forall (host : byte_order) (g : GTID),
     length (GTID.serializeBinaryData host g) = GTID.GTIDBinarySize /\
     GTID.GTID_binData host (GTID.serializeBinaryData host g) = Some g) /\
  (forall g1 g2 : GTID,
     sign (lex_compare (GTID.serializeBinaryData LittleEndian g1)
                       (GTID.serializeBinaryData LittleEndian g2)) =
     GTID.cmp g1 g2).
Proof.
  split; [reflexivity | split].
  - intros host g. split; [apply length_serializeBinaryData |].
    unfold GTID.GTID_binData.
    rewrite length_serializeBinaryData, Nat.ltb_irrefl.
    unfold GTID.serializeBinaryData. cbv zeta.
    rewrite load64_store64.
    rewrite <- (length_store64 host (SWAP64 (GTID._primarySeqNo g))) at 1.
    rewrite skipn_app, Nat.sub_diag, skipn_all, skipn_O. cbn [app].
    rewrite <- (app_nil_r (store64 host (SWAP64 (GTID._GTSeqNo g)))).
    rewrite load64_store64, !SWAP64_involutive.
    destruct g; reflexivity.
  - intros g1 g2.
    rewrite lex_compare_be_value
      by (now rewrite !length_serializeBinaryData).
    rewrite !be_value_serializeBinaryData. symmetry. apply cmp_value.
Qed.

(** ** GTIDSet *)

Lemma In_insert (g x : GTID) (s : GTIDSet.t) :
  In x (GTIDSet.insert g s) <-> x = g \/ In x s.
Proof.
  induction s as [| h r IH]; cbn [GTIDSet.insert In].
  - intuition.
  - rewrite !cmp_ltb.
    destruct (Z.ltb_spec (value g) (value h)); cbn [In]; [intuition |].
    destruct (Z.ltb_spec (value h) (value g)); cbn [In].
    + rewrite IH. intuition.
    + assert (g = h) by (apply value_inj; lia). subst. intuition.
Qed.

Lemma ok_insert (g : GTID) (s : GTIDSet.t) :
  GTIDSet.ok s -> GTIDSet.ok (GTIDSet.insert g s).
Proof.
  unfold GTIDSet.ok.
  induction s as [| h r IH]; cbn [GTIDSet.insert]; intros Hs.
  - repeat constructor.
  - rewrite !cmp_ltb. inversion Hs as [| ? ? Hr Hh]; subst.
    destruct (Z.ltb_spec (value g) (value h)) as [Hgh | Hgh].
    + constructor; [exact Hs |]. constructor; [now apply lt_value |].
      rewrite Forall_forall in *. intros y Hy. specialize (Hh y Hy).
      rewrite lt_value in *. lia.
    + destruct (Z.ltb_spec (value h) (value g)) as [Hhg | Hhg]; [| exact Hs].
      constructor; [now apply IH |].
      rewrite Forall_forall in *. intros y Hy.
      apply In_insert in Hy as [-> | Hy]; [now apply lt_value | now apply Hh].
Qed.

Lemma In_erase_In (g x : GTID) (s : GTIDSet.t) :
  In x (GTIDSet.erase g s) -> In x s.
Proof.
  induction s as [| h r IH]; cbn [GTIDSet.erase In]; [easy |].
  destruct (GTID.cmp h g =? 0); cbn [In]; intuition.
Qed.

Lemma In_erase (g x : GTID) (s : GTIDSet.t) :
  In x s -> x <> g -> In x (GTIDSet.erase g s).
Proof.
  induction s as [| h r IH]; cbn [GTIDSet.erase In]; [easy |].
  intros [-> | Hx] Hne.
  - destruct (Z.eqb_spec (GTID.cmp x g) 0) as [He | He].
    + apply cmp_eq in He. contradiction.
    + now left.
  - destruct (GTID.cmp h g =? 0); cbn [In]; intuition.
Qed.

Lemma ok_erase (g : GTID) (s : GTIDSet.t) :
  GTIDSet.ok s -> GTIDSet.ok (GTIDSet.erase g s).
Proof.
  unfold GTIDSet.ok.
  induction s as [| h r IH]; cbn [GTIDSet.erase]; intros Hs; [exact Hs |].
  inversion Hs as [| ? ? Hr Hh]; subst.
  destruct (GTID.cmp h g =? 0); [exact Hr |].
  constructor; [now apply IH |].
  rewrite Forall_forall in *. intros y Hy. apply Hh. eapply In_erase_In, Hy.
Qed.

Lemma Forall_erase (P : GTID -> Prop) (g : GTID) (s : GTIDSet.t) :
  Forall P s -> Forall P (GTIDSet.erase g s).
Proof.
  rewrite !Forall_forall. intros H y Hy. apply H. eapply In_erase_In, Hy.
Qed.

(** [begin()] is the least element. *)
Lemma begin_least (s : GTIDSet.t) :
  GTIDSet.ok s -> Forall (fun g => GTID.le (GTIDSet.begin s) g) s.
Proof.
  unfold GTIDSet.ok. intros Hs. destruct s as [| h r]; [constructor |].
  inversion Hs as [| ? ? Hr Hh]; subst. cbn [GTIDSet.begin hd].
  constructor.
  - apply le_value. lia.
  - eapply Forall_impl; [| exact Hh]. cbn. intros y Hy.
    rewrite lt_value in Hy. apply le_value. lia.
Qed.

Lemma size_eqb_0 (s : GTIDSet.t) : (GTIDSet.size s =? 0)%nat = true <-> s = [].
Proof. destruct s; cbn; split; congruence. Qed.

Lemma not_In_erase (g : GTID) (s : GTIDSet.t) :
  GTIDSet.ok s -> ~ In g (GTIDSet.erase g s).
Proof.
  unfold GTIDSet.ok.
  induction s as [| h r IH]; cbn [GTIDSet.erase]; intros Hs; [easy |].
  inversion Hs as [| ? ? Hr Hh]; subst.
  destruct (Z.eqb_spec (GTID.cmp h g) 0) as [He | Hne].
  - apply cmp_eq in He. subst h. intros Hin.
    rewrite Forall_forall in Hh. specialize (Hh g Hin).
    apply lt_value in Hh. lia.
  - intros [-> | Hin]; [apply Hne; now apply cmp_eq | now apply IH].
Qed.

Lemma erase_not_In (g : GTID) (s : GTIDSet.t) :
  ~ In g s -> GTIDSet.erase g s = s.
Proof.
  induction s as [| h r IH]; cbn [GTIDSet.erase In]; intros Hn; [reflexivity |].
  destruct (Z.eqb_spec (GTID.cmp h g) 0) as [He | Hne].
  - apply cmp_eq in He. exfalso. apply Hn. now left.
  - f_equal. apply IH. intros Hin. apply Hn. now right.
Qed.

(** ** GTID increments *)

Lemma prim_inc (g : GTID) : prim (GTID.inc g) = prim g.
Proof. reflexivity. Qed.

Lemma seq_inc (g : GTID) : seq (GTID.inc g) = (seq g + 1) mod 2 ^ 64.
Proof.
  unfold seq, GTID.inc, U64; cbn [GTID._GTSeqNo].
  rewrite word.unsigned_add, word.unsigned_of_Z_1. reflexivity.
Qed.

Lemma value_inc (g : GTID) :
  seq g <> UINT64_MAX -> value (GTID.inc g) = value g + 1.
Proof.
  unfold value, UINT64_MAX. intros Hs. rewrite prim_inc, seq_inc.
  pose proof (seq_range g). rewrite Z.mod_small by lia. lia.
Qed.

Lemma wraps_false (m : GTIDManager.t) :
  wraps GetGTIDForPrimary m = false ->
  seq (GTIDManager._nextLiveGTID m) <> UINT64_MAX.
Proof.
  cbn [wraps]. rewrite word.unsigned_eqb. unfold U64, seq.
  rewrite word.unsigned_of_Z_nowrap by (cbv; split; congruence).
  intros H. now apply Z.eqb_neq.
Qed.

(** ** The invariant of a GTIDManager *)

Ltac run_dassert H :=
  repeat match type of H with
    | match dassert ?d ?c with _ => _ end = _ =>
        destruct (dassert d c); [| discriminate H]
    end.

Lemma manager_inv_no_live (m : GTIDManager.t) :
  GTIDManager._liveGTIDs m = [] ->
  GTIDManager._minLiveGTID m = GTIDManager._nextLiveGTID m ->
  manager_inv m.
Proof.
  unfold manager_inv, live_invariant, min_is_live, live_below_next, GTIDSet.ok.
  intros -> ->. repeat split; try constructor; congruence.
Qed.

Lemma manager_inv_new (lastGTID : GTID) :
  manager_inv (GTIDManager.GTIDManager lastGTID).
Proof.
  apply manager_inv_no_live; reflexivity.
Qed.

Lemma manager_inv_ext (m m' : GTIDManager.t) :
  GTIDManager._nextLiveGTID m' = GTIDManager._nextLiveGTID m ->
  GTIDManager._minLiveGTID m' = GTIDManager._minLiveGTID m ->
  GTIDManager._liveGTIDs m' = GTIDManager._liveGTIDs m ->
  manager_inv m -> manager_inv m'.
Proof.
  unfold manager_inv, live_invariant, min_is_live, live_below_next.
  intros -> -> ->. exact (fun H => H).
Qed.

Lemma min_le_next (m : GTIDManager.t) :
  manager_inv m ->
  value (GTIDManager._minLiveGTID m) <= value (GTIDManager._nextLiveGTID m).
Proof.
  intros (_ & (_ & _ & Hempty) & Hmin & Hbelow).
  destruct (GTIDManager._liveGTIDs m) as [| h r] eqn:E.
  - rewrite Hempty by reflexivity. lia.
  - unfold min_is_live, live_below_next in *. rewrite E in *.
    rewrite Forall_forall in Hbelow.
    specialize (Hbelow _ (Hmin ltac:(discriminate))).
    apply lt_value in Hbelow. lia.
Qed.

Lemma getGTIDForPrimary_inv (m : GTIDManager.t) :
  manager_inv m ->
  seq (GTIDManager._nextLiveGTID m) <> UINT64_MAX ->
  manager_inv (snd (GTIDManager.getGTIDForPrimary m)).
Proof.
  intros Hinv Hseq. pose proof (min_le_next m Hinv) as Hmn.
  pose proof (value_inc _ Hseq) as Hinc.
  destruct Hinv as (Hok & (Hlo & Hhi & Hempty) & Hmin & Hbelow).
  unfold manager_inv, live_invariant, min_is_live, live_below_next in *.
  cbn [GTIDManager.getGTIDForPrimary snd GTIDManager._liveGTIDs
       GTIDManager._minLiveGTID GTIDManager._nextLiveGTID].
  repeat rewrite Forall_forall in *.
  repeat split.
  - now apply ok_insert.
  - intros x Hx. apply In_insert in Hx as [-> | Hx]; [| now apply Hlo].
    now apply le_value.
  - intros x Hx. apply le_value. rewrite Hinc.
    apply In_insert in Hx as [-> | Hx]; [lia |].
    specialize (Hbelow x Hx). apply lt_value in Hbelow. lia.
  - intros Hnil.
    assert (Hin : In (GTIDManager._nextLiveGTID m)
                    (GTIDSet.insert (GTIDManager._nextLiveGTID m)
                       (GTIDManager._liveGTIDs m)))
      by (apply In_insert; now left).
    rewrite Hnil in Hin. destruct Hin.
  - intros _. apply In_insert.
    destruct (GTIDManager._liveGTIDs m) as [| h r] eqn:E.
    + left. now apply Hempty.
    + right. apply Hmin. discriminate.
  - intros x Hx. apply lt_value. rewrite Hinc.
    apply In_insert in Hx as [-> | Hx]; [lia |].
    specialize (Hbelow x Hx). apply lt_value in Hbelow. lia.
Qed.

Lemma noteLiveGTIDDone_inv (dbg : bool) (g : GTID) (m m' : GTIDManager.t) :
  manager_inv m ->
  GTIDManager.noteLiveGTIDDone dbg g m = Some m' ->
  manager_inv m'.
Proof.
  intros (Hok & (Hlo & Hhi & Hempty) & Hmin & Hbelow) Hrun.
  unfold GTIDManager.noteLiveGTIDDone in Hrun. run_dassert Hrun.
  unfold manager_inv, live_invariant, min_is_live, live_below_next in *.
  destruct (Z.eqb_spec (GTID.cmp (GTIDManager._minLiveGTID m) g) 0) as [He | Hne];
    injection Hrun as <-;
    cbn [GTIDManager._liveGTIDs GTIDManager._minLiveGTID GTIDManager._nextLiveGTID].
  - pose proof (ok_erase g _ Hok) as Hok'.
    repeat split; try (now apply Forall_erase); try exact Hok'.
    + destruct (GTIDSet.erase g (GTIDManager._liveGTIDs m)) as [| h r] eqn:E;
        [constructor |].
      cbn [GTIDSet.size length Nat.eqb]. rewrite <- E in *.
      now apply begin_least.
    + intros ->. reflexivity.
    + destruct (GTIDSet.erase g (GTIDManager._liveGTIDs m)) as [| h r];
        [congruence |].
      intros _. now left.
  - assert (Hg : GTIDManager._minLiveGTID m <> g)
      by (intros Heq; apply Hne; now apply cmp_eq).
    repeat split; try (now apply Forall_erase); try (now apply ok_erase).
    + intros Hnil.
      destruct (GTIDManager._liveGTIDs m) as [| h r] eqn:E; [now apply Hempty |].
      assert (Hin : In (GTIDManager._minLiveGTID m) (GTIDSet.erase g (h :: r)))
        by (apply In_erase; [apply Hmin; discriminate | exact Hg]).
      rewrite Hnil in Hin. destruct Hin.
    + intros Hlive.
      destruct (GTIDManager._liveGTIDs m) as [| h r] eqn:E.
      * exfalso. now apply Hlive.
      * apply In_erase; [apply Hmin; discriminate | exact Hg].
Qed.

(** With a GTID live, [_minLiveGTID] is below [_nextLiveGTID], so the
    assertion of [noteGTIDAdded] lets it run only with no GTID live. *)
Lemma min_eq_next_no_live (m : GTIDManager.t) :
  manager_inv m ->
  GTID.cmp (GTIDManager._nextLiveGTID m) (GTIDManager._minLiveGTID m) = 0 ->
  GTIDManager._liveGTIDs m = [].
Proof.
  intros (_ & _ & Hmin & Hbelow) He. apply cmp_eq in He.
  unfold min_is_live, live_below_next in *.
  destruct (GTIDManager._liveGTIDs m) as [| h r]; [reflexivity |].
  rewrite Forall_forall in Hbelow.
  specialize (Hbelow _ (Hmin ltac:(discriminate))).
  apply lt_value in Hbelow. rewrite He in Hbelow. lia.
Qed.

Lemma requires_noteGTIDAdded (g : GTID) (m : GTIDManager.t) :
  requires (NoteGTIDAdded g) m = true ->
  GTID.cmp (GTIDManager._nextLiveGTID m) (GTIDManager._minLiveGTID m) = 0 /\
  GTID.cmp (GTIDManager._nextLiveGTID m) g <= 0.
Proof.
  unfold requires, step, GTIDManager.noteGTIDAdded, dassert, verify.
  destruct (Z.eqb_spec (GTID.cmp (GTIDManager._nextLiveGTID m)
                          (GTIDManager._minLiveGTID m)) 0); [| discriminate].
  destruct (Z.leb_spec (GTID.cmp (GTIDManager._nextLiveGTID m) g) 0);
    [| discriminate].
  now split.
Qed.

Lemma requires_resetManager (g : GTID) (m : GTIDManager.t) :
  requires (ResetManager g) m = true -> GTIDManager._liveGTIDs m = [].
Proof.
  unfold requires, step, GTIDManager.resetManager, dassert, verify.
  destruct (GTIDSet.size (GTIDManager._liveGTIDs m) =? 0)%nat eqn:E;
    [| discriminate].
  intros _. now apply size_eqb_0.
Qed.

(** The invariant needs no more of a call than [keeps_live] asks. *)
Lemma step_keeps_live (dbg : bool) (o : op) (m m' : GTIDManager.t)
  (r : option GTID) :
  manager_inv m -> keeps_live o m = true -> step dbg o m = Some (m', r) ->
  manager_inv m'.
Proof.
  intros Hinv Hkeep Hstep.
  destruct o as [| g | g | g | g | g]; cbn [keeps_live] in Hkeep;
    cbn [step] in Hstep;
    [ cbn [GTIDManager.getGTIDForPrimary] in Hstep; injection Hstep as <- _
    | match type of Hstep with
      | match ?c with _ => _ end = _ =>
          destruct c as [m1 |] eqn:E; [| discriminate Hstep];
          injection Hstep as <- _
      end .. ].
  - apply negb_true_iff in Hkeep.
    apply (getGTIDForPrimary_inv m Hinv). now apply wraps_false.
  - eapply noteLiveGTIDDone_inv; eassumption.
  - apply requires_noteGTIDAdded in Hkeep as [He _].
    pose proof (min_eq_next_no_live m Hinv He) as Hnil.
    unfold GTIDManager.noteGTIDAdded in E. run_dassert E.
    injection E as <-. now apply manager_inv_no_live.
  - unfold GTIDManager.noteApplyingGTID in E. run_dassert E.
    injection E as <-. revert Hinv. now apply manager_inv_ext.
  - unfold GTIDManager.noteGTIDApplied in E. run_dassert E.
    injection E as <-. revert Hinv. now apply manager_inv_ext.
  - apply requires_resetManager in Hkeep as Hnil.
    unfold GTIDManager.resetManager in E. run_dassert E.
    injection E as <-. now apply manager_inv_no_live.
Qed.

Lemma regular_keeps_live (o : op) (m : GTIDManager.t) :
  regular o m = true -> keeps_live o m = true.
Proof.
  unfold regular. intros H. apply andb_prop in H as [Hreq Hwrap].
  destruct o; cbn [keeps_live]; try reflexivity; assumption.
Qed.

Lemma live_pre_keeps_live (o : op) (m : GTIDManager.t) :
  live_pre o m = true -> keeps_live o m = true.
Proof.
  destruct o; cbn [live_pre keeps_live]; intros H; try reflexivity; exact H.
Qed.

Lemma one_primary_keeps_live (o : op) (m : GTIDManager.t) :
  one_primary o m = true -> keeps_live o m = true.
Proof.
  destruct o; cbn [one_primary keeps_live]; intros H; try reflexivity;
    try exact H; discriminate H.
Qed.

(** Every call made under its precondition that does not wrap the counter
    keeps the invariant. *)
Lemma step_manager_inv (dbg : bool) (o : op) (m m' : GTIDManager.t)
  (r : option GTID) :
  manager_inv m -> regular o m = true -> step dbg o m = Some (m', r) ->
  manager_inv m'.
Proof.
  intros Hinv Hreg. apply (step_keeps_live dbg o m m' r Hinv).
  now apply regular_keeps_live.
Qed.

Lemma exec_manager_inv (dbg : bool) (allowed : op -> GTIDManager.t -> bool)
  (m : GTIDManager.t) (tr : list event) (m' : GTIDManager.t) :
  (forall o s, allowed o s = true -> regular o s = true) ->
  exec dbg allowed m tr m' -> manager_inv m -> manager_inv m'.
Proof.
  intros Hallowed Hexec. induction Hexec as [| m o r m1 tr m2 Ha Hs _ IH].
  - exact (fun H => H).
  - intros Hinv. apply IH. eapply step_manager_inv; eauto.
Qed.

Lemma exec_keeps_live (dbg : bool) (allowed : op -> GTIDManager.t -> bool)
  (m : GTIDManager.t) (tr : list event) (m' : GTIDManager.t) :
  (forall o s, allowed o s = true -> keeps_live o s = true) ->
  exec dbg allowed m tr m' -> manager_inv m -> manager_inv m'.
Proof.
  intros Hallowed Hexec. induction Hexec as [| m o r m1 tr m2 Ha Hs _ IH].
  - exact (fun H => H).
  - intros Hinv. apply IH. eapply step_keeps_live; eauto.
Qed.

(** ** Runs *)

Lemma run_exec (dbg : bool) (allowed : op -> GTIDManager.t -> bool)
  (ops : list op) (m : GTIDManager.t) (tr : list event) (m' : GTIDManager.t) :
  run dbg allowed ops m = Some (tr, m') -> exec dbg allowed m tr m'.
Proof.
  revert m tr m'. induction ops as [| o rest IH]; intros m tr m'; cbn [run].
  - intros [= <- <-]. constructor.
  - destruct (allowed o m) eqn:Ha; [| discriminate].
    destruct (step dbg o m) as [[m1 r] |] eqn:Hs; [| discriminate].
    cbn [fst snd].
    destruct (run dbg allowed rest m1) as [[tr1 m2] |] eqn:Hr; [| discriminate].
    cbn [fst snd]. intros [= <- <-].
    econstructor; eauto.
Qed.

(** The two builds differ only when an assertion fails. *)
Lemma requires_step (dbg : bool) (o : op) (m : GTIDManager.t) :
  requires o m = true -> step dbg o m = step true o m.
Proof.
  destruct dbg; [reflexivity |]. unfold requires.
  destruct o as [| g | g | g | g | g]; cbn [step]; [reflexivity | ..];
    unfold GTIDManager.noteLiveGTIDDone, GTIDManager.noteGTIDAdded,
      GTIDManager.noteApplyingGTID, GTIDManager.noteGTIDApplied,
      GTIDManager.resetManager, dassert, verify;
    repeat match goal with
      | |- context [if ?c then Some tt else None] =>
          destruct c; [| discriminate]
      end; reflexivity.
Qed.

(** C2 (amended). In every state that a GTIDManager reaches from its
    construction through its operations ([getGTIDForPrimary],
    [noteLiveGTIDDone] under its precondition, [noteGTIDAdded] under its
    precondition, [resetManager] under its precondition; [noteApplyingGTID]
    and [noteGTIDApplied] in any way), none of which is a
    [getGTIDForPrimary] made when [GTSeqNo] of [nextLiveGTID] is
    [2^64 - 1], [minLiveGTID] is at most every live GTID, every live GTID
    is at most (indeed below) [nextLiveGTID], and [minLiveGTID] equals
    [nextLiveGTID] when no GTID is live; with a GTID live, [minLiveGTID] is
    one of the live GTIDs.  Every such operation made in such a state
    leaves a state in which all of this holds again. *)
Theorem live_invariant_reachable (dbg : bool) (lastGTID : GTID)
  (tr : list event) (m : GTIDManager.t) :
  exec dbg live_pre (GTIDManager.GTIDManager lastGTID) tr m ->
  (live_invariant m /\ min_is_live m /\ live_below_next m) /\
  (forall (o : op) (m' : GTIDManager.t) (r : option GTID),
     live_pre o m = true -> step dbg o m = Some (m', r) ->
     live_invariant m' /\ min_is_live m' /\ live_below_next m').
Proof.
  intros Hexec.
  assert (Hinv : manager_inv m).
  { apply (exec_keeps_live dbg live_pre _ tr m live_pre_keeps_live Hexec).
    apply manager_inv_new. }
  split; [apply Hinv |].
  intros o m' r Hpre Hstep.
  apply (step_keeps_live dbg o m m' r Hinv (live_pre_keeps_live o m Hpre) Hstep).
Qed.

Lemma live_invariant_reachable_witness :
  exec false live_pre (GTIDManager.GTIDManager (gtid 5 7))
    (fst busy_run) (snd busy_run) /\
  GTIDManager._liveGTIDs (snd busy_run) = [gtid 5 9; gtid 5 10] /\
  GTIDManager._minLiveGTID (snd busy_run) = gtid 5 9 /\
  GTIDManager._nextLiveGTID (snd busy_run) = gtid 5 11 /\
  live_invariant (snd busy_run) /\ min_is_live (snd busy_run) /\
  live_below_next (snd busy_run).
Proof.
  assert (H : exec false live_pre (GTIDManager.GTIDManager (gtid 5 7))
                (fst busy_run) (snd busy_run)).
  { apply (run_exec false live_pre busy_ops). vm_compute. reflexivity. }
  split; [exact H |]. repeat (split; [reflexivity |]).
  exact (proj1 (live_invariant_reachable false (gtid 5 7)
                  (fst busy_run) (snd busy_run) H)).
Defined.

Ltac decide_order :=
  unfold GTID.le, GTID.lt; vm_compute; congruence.

(** C2, as stated, fails.  On a manager as constructed from
    [(0, 2^64 - 2)], one [getGTIDForPrimary] leaves the live GTID
    [(0, 2^64 - 1)] above [nextLiveGTID], which has wrapped to [(0, 0)].
    Nor do the three conditions carry from one state to the next by
    themselves: [noteLiveGTIDDone], under its precondition, on a state that
    meets them but whose [minLiveGTID] is not itself live, leaves no live
    GTID and [minLiveGTID] different from [nextLiveGTID]; and
    [noteGTIDAdded], under its precondition, on a state that meets them but
    has a live GTID equal to [nextLiveGTID], leaves [minLiveGTID] above
    that live GTID. *)
Lemma live_invariant_not_preserved :
  (live_invariant last_seq_manager /\
   requires GetGTIDForPrimary last_seq_manager = true /\
   GTIDManager._liveGTIDs (snd (GTIDManager.getGTIDForPrimary last_seq_manager))
     = [gtid 0 UINT64_MAX] /\
   GTIDManager._nextLiveGTID (snd (GTIDManager.getGTIDForPrimary last_seq_manager))
     = gtid 0 0 /\
   ~ live_invariant (snd (GTIDManager.getGTIDForPrimary last_seq_manager))) /\
  (live_invariant stale_min_manager /\
   GTIDSet.ok (GTIDManager._liveGTIDs stale_min_manager) /\
   requires (NoteLiveGTIDDone (gtid 5 9)) stale_min_manager = true /\
   match GTIDManager.noteLiveGTIDDone true (gtid 5 9) stale_min_manager with
   | Some m' => ~ live_invariant m'
   | None => False
   end) /\
  (live_invariant live_at_next_manager /\
   GTIDSet.ok (GTIDManager._liveGTIDs live_at_next_manager) /\
   requires (NoteGTIDAdded (gtid 5 10)) live_at_next_manager = true /\
   match GTIDManager.noteGTIDAdded true (gtid 5 10) live_at_next_manager with
   | Some m' => ~ live_invariant m'
   | None => False
   end).
Proof.
  split; [split; [| split; [| split; [| split]]]
         | split; [split; [| split; [| split]] | split; [| split; [| split]]]].
  - repeat split; cbn; try constructor; reflexivity.
  - reflexivity.
  - reflexivity.
  - reflexivity.
  - intros (_ & Hhi & _). cbn in Hhi.
    inversion Hhi as [| ? ? Hle _]; subst. revert Hle. decide_order.
  - repeat split; cbn; repeat constructor; decide_order.
  - repeat constructor.
  - reflexivity.
  - cbn. intros (_ & _ & Hempty). specialize (Hempty eq_refl).
    revert Hempty. vm_compute. congruence.
  - repeat split; cbn; repeat constructor; decide_order.
  - repeat constructor.
  - reflexivity.
  - cbn. intros (Hlo & _). cbn in Hlo.
    inversion Hlo as [| ? ? Hle _]; subst. revert Hle. decide_order.
Qed.

(** ** Allocation *)

Lemma gtid_inc (p s : Z) : GTID.inc (gtid p s) = gtid p (s + 1).
Proof.
  unfold GTID.inc, gtid, U64; cbn [GTID._primarySeqNo GTID._GTSeqNo].
  now rewrite word.ring_morph_add.
Qed.

Lemma gtid_inc_primary (p s : Z) : GTID.inc_primary (gtid p s) = gtid (p + 1) 0.
Proof.
  unfold GTID.inc_primary, gtid, U64; cbn [GTID._primarySeqNo GTID._GTSeqNo].
  now rewrite word.ring_morph_add.
Qed.

(** C3. [getGTIDForPrimary] returns the current [nextLiveGTID], inserts it
    into [liveGTIDs] and advances [nextLiveGTID] by an increment of its
    [GTSeqNo] (in [uint64_t]), leaving everything else as it was.  On a
    manager constructed from [GTID(p, s)] the first call returns
    [(p, s + 1)] and the second [(p, s + 2)]; from [GTID(5, 7)] these are
    [(5, 8)] and [(5, 9)]. *)
Theorem getGTIDForPrimary_spec :
  (forall m : GTIDManager.t,
     let ret := fst (GTIDManager.getGTIDForPrimary m) in
     let m' := snd (GTIDManager.getGTIDForPrimary m) in
     ret = GTIDManager._nextLiveGTID m /\
     GTIDManager._liveGTIDs m' = GTIDSet.insert ret (GTIDManager._liveGTIDs m) /\
     In ret (GTIDManager._liveGTIDs m') /\
     GTIDManager._nextLiveGTID m' = GTID.inc (GTIDManager._nextLiveGTID m) /\
     GTID._primarySeqNo (GTIDManager._nextLiveGTID m') =
       GTID._primarySeqNo (GTIDManager._nextLiveGTID m) /\
     GTID._GTSeqNo (GTIDManager._nextLiveGTID m') =
       word.add (GTID._GTSeqNo (GTIDManager._nextLiveGTID m)) (U64 1) /\
     GTIDManager._minLiveGTID m' = GTIDManager._minLiveGTID m /\
     GTIDManager._nextUnappliedGTID m' = GTIDManager._nextUnappliedGTID m /\
     GTIDManager._minUnappliedGTID m' = GTIDManager._minUnappliedGTID m /\
     GTIDManager._unappliedGTIDs m' = GTIDManager._unappliedGTIDs m) /\
  (forall p s : Z,
     let m0 := GTIDManager.GTIDManager (gtid p s) in
     let m1 := snd (GTIDManager.getGTIDForPrimary m0) in
     fst (GTIDManager.getGTIDForPrimary m0) = gtid p (s + 1) /\
     fst (GTIDManager.getGTIDForPrimary m1) = gtid p (s + 2)) /\
  (let m0 := GTIDManager.GTIDManager (gtid 5 7) in
   let m1 := snd (GTIDManager.getGTIDForPrimary m0) in
   fst (GTIDManager.getGTIDForPrimary m0) = gtid 5 8 /\
   fst (GTIDManager.getGTIDForPrimary m1) = gtid 5 9).
Proof.
  split; [| split].
  - intros m. cbv zeta.
    cbn [GTIDManager.getGTIDForPrimary fst snd GTIDManager._liveGTIDs
         GTIDManager._nextLiveGTID GTIDManager._minLiveGTID
         GTIDManager._nextUnappliedGTID GTIDManager._minUnappliedGTID
         GTIDManager._unappliedGTIDs GTID.inc GTID._primarySeqNo GTID._GTSeqNo].
    repeat split. apply In_insert. now left.
  - intros p s. cbv zeta.
    cbn [GTIDManager.getGTIDForPrimary GTIDManager.GTIDManager fst snd
         GTIDManager._nextLiveGTID].
    rewrite !gtid_inc. split; [reflexivity | f_equal; lia].
  - split; reflexivity.
Qed.

(** ** Reset *)

(** C5. With no GTID live, [resetManager(lastGTID)] runs to the end in
    either build; it sets [nextLiveGTID] to [lastGTID] with [primarySeqNo]
    incremented (in [uint64_t]) and [GTSeqNo] zero, sets [minLiveGTID] to
    the same GTID, and leaves [nextUnappliedGTID], [minUnappliedGTID],
    [unappliedGTIDs] and [liveGTIDs] as they were, so that the next
    allocation returns the new [nextLiveGTID]: after
    [resetManager((p, s))] it is [(p + 1, 0)], after
    [resetManager((5, 9))] it is [(6, 0)]. *)
Theorem resetManager_spec (dbg : bool) (lastGTID : GTID) (m : GTIDManager.t) :
  GTIDManager._liveGTIDs m = [] ->
  exists m' : GTIDManager.t,
    GTIDManager.resetManager dbg lastGTID m = Some m' /\
    GTIDManager._nextLiveGTID m' =
      GTID.GTID (word.add (GTID._primarySeqNo lastGTID) (U64 1)) (U64 0) /\
    GTIDManager._minLiveGTID m' = GTIDManager._nextLiveGTID m' /\
    GTIDManager._nextUnappliedGTID m' = GTIDManager._nextUnappliedGTID m /\
    GTIDManager._minUnappliedGTID m' = GTIDManager._minUnappliedGTID m /\
    GTIDManager._unappliedGTIDs m' = GTIDManager._unappliedGTIDs m /\
    GTIDManager._liveGTIDs m' = GTIDManager._liveGTIDs m /\
    fst (GTIDManager.getGTIDForPrimary m') = GTIDManager._nextLiveGTID m' /\
    (forall p s : Z,
       lastGTID = gtid p s ->
       fst (GTIDManager.getGTIDForPrimary m') = gtid (p + 1) 0).
Proof.
  intros Hnil. unfold GTIDManager.resetManager. rewrite Hnil.
  assert (Hd : dassert dbg (GTIDSet.size [] =? 0)%nat = Some tt)
    by (destruct dbg; reflexivity).
  rewrite Hd. eexists. split; [reflexivity |].
  cbn [GTIDManager.getGTIDForPrimary fst GTIDManager._liveGTIDs
       GTIDManager._nextLiveGTID GTIDManager._minLiveGTID
       GTIDManager._nextUnappliedGTID GTIDManager._minUnappliedGTID
       GTIDManager._unappliedGTIDs].
  repeat split. intros p s ->. apply gtid_inc_primary.
Qed.

Lemma resetManager_spec_witness :
  GTIDManager._liveGTIDs (GTIDManager.GTIDManager (gtid 5 7)) = [] /\
  exists m' : GTIDManager.t,
    GTIDManager.resetManager true (gtid 5 9) (GTIDManager.GTIDManager (gtid 5 7))
      = Some m' /\
    GTIDManager._nextLiveGTID m' = gtid 6 0 /\
    fst (GTIDManager.getGTIDForPrimary m') = gtid 6 0.
Proof.
  split; [reflexivity |].
  destruct (resetManager_spec true (gtid 5 9) (GTIDManager.GTIDManager (gtid 5 7))
              eq_refl) as (m' & Hrun & Hnext & _ & _ & _ & _ & _ & _ & Hex).
  exists m'. split; [exact Hrun |]. split; [| exact (Hex 5 9 eq_refl)].
  rewrite Hnext. reflexivity.
Defined.

(** Every call keeps the set of live GTIDs a set. *)
Lemma step_ok (dbg : bool) (o : op) (m m' : GTIDManager.t) (r : option GTID) :
  GTIDSet.ok (GTIDManager._liveGTIDs m) -> step dbg o m = Some (m', r) ->
  GTIDSet.ok (GTIDManager._liveGTIDs m').
Proof.
  intros Hok Hstep.
  destruct o as [| g | g | g | g | g]; cbn [step] in Hstep;
    [ cbn [GTIDManager.getGTIDForPrimary] in Hstep; injection Hstep as <- _
    | match type of Hstep with
      | match ?c with _ => _ end = _ =>
          destruct c as [m1 |] eqn:E; [| discriminate Hstep];
          injection Hstep as <- _
      end .. ].
  - now apply ok_insert.
  - unfold GTIDManager.noteLiveGTIDDone in E. run_dassert E.
    destruct (GTID.cmp (GTIDManager._minLiveGTID m) g =? 0); injection E as <-;
      now apply ok_erase.
  - unfold GTIDManager.noteGTIDAdded in E. run_dassert E. now injection E as <-.
  - unfold GTIDManager.noteApplyingGTID in E. run_dassert E. now injection E as <-.
  - unfold GTIDManager.noteGTIDApplied in E. run_dassert E. now injection E as <-.
  - unfold GTIDManager.resetManager in E. run_dassert E. now injection E as <-.
Qed.

Lemma exec_ok (dbg : bool) (allowed : op -> GTIDManager.t -> bool)
  (m : GTIDManager.t) (tr : list event) (m' : GTIDManager.t) :
  exec dbg allowed m tr m' ->
  GTIDSet.ok (GTIDManager._liveGTIDs m) -> GTIDSet.ok (GTIDManager._liveGTIDs m').
Proof.
  intros Hexec. induction Hexec as [| m o r m1 tr m2 Ha Hs _ IH].
  - exact (fun H => H).
  - intros Hok. apply IH. eapply step_ok; eauto.
Qed.

(** ** The unapplied minimum on a primary *)

Lemma primary_step_mirror (dbg : bool) (o : op) (m m' : GTIDManager.t)
  (r : option GTID) :
  is_primary_op o = true -> step dbg o m = Some (m', r) ->
  (GTIDManager._minUnappliedGTID m' = GTIDManager._minLiveGTID m') \/
  (GTIDManager._minUnappliedGTID m' = GTIDManager._minUnappliedGTID m /\
   GTIDManager._minLiveGTID m' = GTIDManager._minLiveGTID m).
Proof.
  destruct o as [| g | g | g | g | g]; try discriminate; intros _ Hstep;
    cbn [step] in Hstep.
  - cbn [GTIDManager.getGTIDForPrimary] in Hstep. injection Hstep as <- _.
    right. split; reflexivity.
  - destruct (GTIDManager.noteLiveGTIDDone dbg g m) as [m1 |] eqn:E;
      [| discriminate]. injection Hstep as <- _.
    unfold GTIDManager.noteLiveGTIDDone in E. run_dassert E.
    destruct (GTID.cmp (GTIDManager._minLiveGTID m) g =? 0); injection E as <-.
    + left. reflexivity.
    + right. split; reflexivity.
Qed.

Lemma exec_primary_mirror (dbg : bool) (m : GTIDManager.t) (tr : list event)
  (m' : GTIDManager.t) :
  exec dbg primary_only m tr m' ->
  GTIDManager._minUnappliedGTID m = GTIDManager._minLiveGTID m \/
  GTIDManager._minUnappliedGTID m = GTID.GTID_default ->
  GTIDManager._minUnappliedGTID m' = GTIDManager._minLiveGTID m' \/
  GTIDManager._minUnappliedGTID m' = GTID.GTID_default.
Proof.
  intros Hexec. induction Hexec as [| m o r m1 tr m2 Ha Hs _ IH].
  - exact (fun H => H).
  - intros H. apply IH.
    destruct (primary_step_mirror dbg o m m1 r Ha Hs) as [He | [Hu Hl]].
    + now left.
    + rewrite Hu, Hl. exact H.
Qed.

(** What [noteLiveGTIDDone] does when it is given [minLiveGTID] itself. *)
Lemma noteLiveGTIDDone_min (dbg : bool) (m m' : GTIDManager.t) :
  GTIDSet.ok (GTIDManager._liveGTIDs m) ->
  GTIDManager.noteLiveGTIDDone dbg (GTIDManager._minLiveGTID m) m = Some m' ->
  GTIDManager._liveGTIDs m' =
    GTIDSet.erase (GTIDManager._minLiveGTID m) (GTIDManager._liveGTIDs m) /\
  ~ In (GTIDManager._minLiveGTID m) (GTIDManager._liveGTIDs m') /\
  GTIDManager._nextLiveGTID m' = GTIDManager._nextLiveGTID m /\
  GTIDManager._minLiveGTID m' =
    (if (GTIDSet.size (GTIDManager._liveGTIDs m') =? 0)%nat
     then GTIDManager._nextLiveGTID m
     else GTIDSet.begin (GTIDManager._liveGTIDs m')) /\
  Forall (fun g => GTID.le (GTIDManager._minLiveGTID m') g)
    (GTIDManager._liveGTIDs m') /\
  (GTIDManager._liveGTIDs m' <> [] ->
   In (GTIDManager._minLiveGTID m') (GTIDManager._liveGTIDs m')) /\
  GTIDManager._minUnappliedGTID m' = GTIDManager._minLiveGTID m'.
Proof.
  intros Hok E. unfold GTIDManager.noteLiveGTIDDone in E. run_dassert E.
  assert (Hc : GTID.cmp (GTIDManager._minLiveGTID m) (GTIDManager._minLiveGTID m) = 0)
    by now apply cmp_eq.
  rewrite Hc in E. cbn [Z.eqb] in E. injection E as <-.
  cbn [GTIDManager._liveGTIDs GTIDManager._minLiveGTID
       GTIDManager._nextLiveGTID GTIDManager._minUnappliedGTID].
  pose proof (ok_erase (GTIDManager._minLiveGTID m) _ Hok) as Hok'.
  split; [reflexivity |]. split; [now apply not_In_erase |].
  split; [reflexivity |]. split; [reflexivity |].
  destruct (GTIDSet.erase (GTIDManager._minLiveGTID m) (GTIDManager._liveGTIDs m))
    as [| h t] eqn:El.
  - split; [constructor |]. split; [congruence | reflexivity].
  - cbn [GTIDSet.size length Nat.eqb]. split; [now apply begin_least |].
    split; [intros _; now left | reflexivity].
Qed.

(** C4 (amended). On a primary, that is in every state reached from
    construction through [getGTIDForPrimary] and [noteLiveGTIDDone],
    [minUnappliedGTID] is either equal to [minLiveGTID] or still the default
    [(0, 0)] that the constructor leaves.  [noteLiveGTIDDone] called on
    [minLiveGTID] itself erases it from [liveGTIDs] and leaves the rest,
    recomputes [minLiveGTID] as the least of the GTIDs still live, or as
    [nextLiveGTID] when none is, and makes [minUnappliedGTID] equal to the
    recomputed [minLiveGTID]; once the two are equal, both calls keep them
    equal. *)
Theorem minUnapplied_mirrors_minLive (dbg : bool) (lastGTID : GTID)
  (tr : list event) (m : GTIDManager.t) :
  exec dbg primary_only (GTIDManager.GTIDManager lastGTID) tr m ->
  (GTIDManager._minUnappliedGTID m = GTIDManager._minLiveGTID m \/
   GTIDManager._minUnappliedGTID m = GTID.GTID_default) /\
  (forall m' : GTIDManager.t,
     GTIDManager.noteLiveGTIDDone dbg (GTIDManager._minLiveGTID m) m = Some m' ->
     GTIDManager._liveGTIDs m' =
       GTIDSet.erase (GTIDManager._minLiveGTID m) (GTIDManager._liveGTIDs m) /\
     ~ In (GTIDManager._minLiveGTID m) (GTIDManager._liveGTIDs m') /\
     (forall g, g <> GTIDManager._minLiveGTID m ->
        In g (GTIDManager._liveGTIDs m) -> In g (GTIDManager._liveGTIDs m')) /\
     GTIDManager._nextLiveGTID m' = GTIDManager._nextLiveGTID m /\
     GTIDManager._minLiveGTID m' =
       (if (GTIDSet.size (GTIDManager._liveGTIDs m') =? 0)%nat
        then GTIDManager._nextLiveGTID m
        else GTIDSet.begin (GTIDManager._liveGTIDs m')) /\
     Forall (fun g => GTID.le (GTIDManager._minLiveGTID m') g)
       (GTIDManager._liveGTIDs m') /\
     (GTIDManager._liveGTIDs m' <> [] ->
      In (GTIDManager._minLiveGTID m') (GTIDManager._liveGTIDs m')) /\
     GTIDManager._minUnappliedGTID m' = GTIDManager._minLiveGTID m') /\
  (forall (o : op) (m' : GTIDManager.t) (r : option GTID),
     is_primary_op o = true -> step dbg o m = Some (m', r) ->
     GTIDManager._minUnappliedGTID m = GTIDManager._minLiveGTID m ->
     GTIDManager._minUnappliedGTID m' = GTIDManager._minLiveGTID m').
Proof.
  intros Hexec. split; [| split].
  - apply (exec_primary_mirror dbg _ tr m Hexec). now right.
  - intros m' E.
    assert (Hok : GTIDSet.ok (GTIDManager._liveGTIDs m))
      by (apply (exec_ok dbg primary_only _ tr m Hexec); constructor).
    destruct (noteLiveGTIDDone_min dbg m m' Hok E)
      as (Hlive & Hout & Hnext & Hmin & Hleast & Hin & Hmirror).
    repeat (split; [assumption |]).
    split; [| repeat (split; [assumption |]); assumption].
    intros g Hg Hing. rewrite Hlive. apply In_erase; [exact Hing | congruence].
  - intros o m' r Ho Hs He.
    destruct (primary_step_mirror dbg o m m' r Ho Hs) as [H | [Hu Hl]];
      [exact H | congruence].
Qed.

Lemma minUnapplied_mirrors_minLive_witness :
  exec true primary_only (GTIDManager.GTIDManager (gtid 5 7))
    (fst two_allocations_run) (snd two_allocations_run) /\
  GTIDManager._liveGTIDs (snd two_allocations_run) = [gtid 5 8; gtid 5 9] /\
  GTIDManager.getMins (snd two_allocations_run) = (gtid 5 8, gtid 0 0) /\
  (GTIDManager._minUnappliedGTID (snd two_allocations_run) =
     GTIDManager._minLiveGTID (snd two_allocations_run) \/
   GTIDManager._minUnappliedGTID (snd two_allocations_run) = GTID.GTID_default) /\
  match GTIDManager.noteLiveGTIDDone true
          (GTIDManager._minLiveGTID (snd two_allocations_run))
          (snd two_allocations_run) with
  | Some m' =>
      GTIDManager._liveGTIDs m' = [gtid 5 9] /\
      GTIDManager.getMins m' = (gtid 5 9, gtid 5 9) /\
      ~ In (gtid 5 8) (GTIDManager._liveGTIDs m') /\
      GTIDManager._minUnappliedGTID m' = GTIDManager._minLiveGTID m'
  | None => False
  end.
Proof.
  assert (H : exec true primary_only (GTIDManager.GTIDManager (gtid 5 7))
                (fst two_allocations_run) (snd two_allocations_run)).
  { apply (run_exec true primary_only wrapping_ops). vm_compute. reflexivity. }
  destruct (minUnapplied_mirrors_minLive true (gtid 5 7) _ _ H) as (Hd & Hdone & _).
  split; [exact H |]. split; [reflexivity |]. split; [reflexivity |].
  split; [exact Hd |].
  destruct (GTIDManager.noteLiveGTIDDone true
              (GTIDManager._minLiveGTID (snd two_allocations_run))
              (snd two_allocations_run)) as [m' |] eqn:E.
  - destruct (Hdone m' eq_refl) as (_ & Hout & _ & _ & _ & _ & _ & Hmirror).
    split; [| split; [| split; [exact Hout | exact Hmirror]]];
      vm_compute in E; injection E as <-; reflexivity.
  - vm_compute in E. discriminate E.
Defined.

(** C4, as stated, fails.  A manager as constructed has [minLiveGTID]
    [(5, 8)] and [minUnappliedGTID] [(0, 0)]; and after two allocations
    [noteLiveGTIDDone] on the later GTID leaves the two different as
    well. *)
Lemma minUnapplied_not_minLive :
  exec true primary_only (GTIDManager.GTIDManager (gtid 5 7))
    [] (GTIDManager.GTIDManager (gtid 5 7)) /\
  GTIDManager.getMins (GTIDManager.GTIDManager (gtid 5 7)) = (gtid 5 8, gtid 0 0) /\
  GTIDManager._minUnappliedGTID (GTIDManager.GTIDManager (gtid 5 7)) <>
    GTIDManager._minLiveGTID (GTIDManager.GTIDManager (gtid 5 7)) /\
  exec true primary_only (GTIDManager.GTIDManager (gtid 5 7))
    (fst later_done_run) (snd later_done_run) /\
  GTIDManager.getMins (snd later_done_run) = (gtid 5 8, gtid 0 0) /\
  GTIDManager._minUnappliedGTID (snd later_done_run) <>
    GTIDManager._minLiveGTID (snd later_done_run).
Proof.
  repeat split.
  - constructor.
  - vm_compute. congruence.
  - apply (run_exec true primary_only later_done_ops). vm_compute. reflexivity.
  - vm_compute. congruence.
Qed.

(** ** Allocations in order *)

(** What one call does to the two watermarks. *)
Lemma step_monotone (dbg : bool) (o : op) (m m1 : GTIDManager.t)
  (r : option GTID) :
  manager_inv m -> one_primary o m = true -> step dbg o m = Some (m1, r) ->
  value (GTIDManager._minLiveGTID m) <= value (GTIDManager._minLiveGTID m1) /\
  value (GTIDManager._nextLiveGTID m) <= value (GTIDManager._nextLiveGTID m1) /\
  (forall a, r = Some a ->
     a = GTIDManager._nextLiveGTID m /\
     value a < value (GTIDManager._nextLiveGTID m1)).
Proof.
  intros Hinv Hone Hstep. pose proof (min_le_next m Hinv) as Hmn.
  destruct o as [| g | g | g | g | g]; cbn [one_primary] in Hone;
    try discriminate Hone; cbn [step] in Hstep;
    [ cbn [GTIDManager.getGTIDForPrimary] in Hstep; injection Hstep as <- <-
    | match type of Hstep with
      | match ?c with _ => _ end = _ =>
          destruct c as [m' |] eqn:E; [| discriminate Hstep];
          injection Hstep as <- <-
      end .. ].
  - apply negb_true_iff in Hone.
    cbn [GTIDManager._minLiveGTID GTIDManager._nextLiveGTID].
    rewrite (value_inc _ (wraps_false m Hone)).
    repeat split; try lia. all: injection H as <-; try reflexivity; lia.
  - destruct Hinv as (Hok & (Hlo & _ & _) & _ & _).
    unfold GTIDManager.noteLiveGTIDDone in E. run_dassert E.
    destruct (GTID.cmp (GTIDManager._minLiveGTID m) g =? 0); injection E as <-;
      cbn [GTIDManager._minLiveGTID GTIDManager._nextLiveGTID];
      (repeat split; try lia; try discriminate).
    destruct (GTIDSet.erase g (GTIDManager._liveGTIDs m)) as [| h t] eqn:El;
      cbn [GTIDSet.size length Nat.eqb GTIDSet.begin hd]; [exact Hmn |].
    assert (Hin : In h (GTIDManager._liveGTIDs m))
      by (apply (In_erase_In g); rewrite El; now left).
    rewrite Forall_forall in Hlo. now apply le_value, Hlo.
  - apply requires_noteGTIDAdded in Hone as [He Hle].
    apply cmp_eq in He. assert (Hle' := proj1 (le_value _ _) Hle).
    unfold GTIDManager.noteGTIDAdded in E. run_dassert E. injection E as <-.
    cbn [GTIDManager._minLiveGTID GTIDManager._nextLiveGTID].
    rewrite <- He. repeat split; try lia; discriminate.
  - unfold GTIDManager.noteApplyingGTID in E. run_dassert E. injection E as <-.
    cbn [GTIDManager._minLiveGTID GTIDManager._nextLiveGTID].
    repeat split; try lia; discriminate.
  - unfold GTIDManager.noteGTIDApplied in E. run_dassert E. injection E as <-.
    cbn [GTIDManager._minLiveGTID GTIDManager._nextLiveGTID].
    repeat split; try lia; discriminate.
Qed.

Lemma exec_sorted (dbg : bool) (m : GTIDManager.t) (tr : list event)
  (m' : GTIDManager.t) :
  exec dbg one_primary m tr m' -> manager_inv m ->
  Forall (fun a => value (GTIDManager._nextLiveGTID m) <= value a)
    (allocations tr) /\
  StronglySorted GTID.lt (allocations tr) /\
  Forall (fun g => value (GTIDManager._minLiveGTID m) <= value g)
    (minLives tr) /\
  StronglySorted GTID.le (minLives tr).
Proof.
  intros Hexec. induction Hexec as [| m o r m1 tr m2 Ha Hs _ IH]; intros Hinv.
  - cbn. repeat split; constructor.
  - pose proof (step_keeps_live dbg o m m1 r Hinv
                  (one_primary_keeps_live o m Ha) Hs) as Hinv1.
    destruct (IH Hinv1) as (Hge & Hsorted & Hmge & Hmsorted).
    destruct (step_monotone dbg o m m1 r Hinv Ha Hs) as (Hmin & Hnext & Hret).
    cbn [allocations minLives map ev_ret ev_state]. fold (minLives tr).
    assert (Hmins :
      Forall (fun g => value (GTIDManager._minLiveGTID m) <= value g)
        (GTIDManager._minLiveGTID m1 :: minLives tr) /\
      StronglySorted GTID.le (GTIDManager._minLiveGTID m1 :: minLives tr)).
    { split.
      - constructor; [exact Hmin |].
        eapply Forall_impl; [| exact Hmge]. cbn. intros; lia.
      - constructor; [exact Hmsorted |].
        eapply Forall_impl; [| exact Hmge]. cbn. intros g Hg. now apply le_value. }
    destruct Hmins as [Hm1 Hm2].
    destruct r as [a |].
    + destruct (Hret a eq_refl) as [-> Hlt].
      repeat split; try assumption.
      * constructor; [lia |].
        eapply Forall_impl; [| exact Hge]. cbn. intros; lia.
      * constructor; [exact Hsorted |].
        eapply Forall_impl; [| exact Hge]. cbn. intros b Hb.
        apply lt_value. lia.
    + repeat split; try assumption.
      eapply Forall_impl; [| exact Hge]. cbn. intros; lia.
Qed.

(** C6 (amended). In any sequence of GTIDManager operations from
    construction, in a debug or a release build, without [resetManager], in
    which no [getGTIDForPrimary] is made when [GTSeqNo] of [nextLiveGTID]
    is [2^64 - 1] and every [noteGTIDAdded] is made under its precondition
    ([nextLiveGTID == minLiveGTID], and its argument not below
    [nextLiveGTID]), the GTIDs that [getGTIDForPrimary] returns are
    strictly increasing in the order of the calls (each is below every
    later one), and [minLiveGTID] never decreases from one call to the
    next, starting with its value at construction.  Nothing is asked of
    [noteLiveGTIDDone], [noteApplyingGTID] and [noteGTIDApplied]. *)
Theorem allocations_increasing (dbg : bool) (lastGTID : GTID)
  (tr : list event) (m : GTIDManager.t) :
  exec dbg one_primary (GTIDManager.GTIDManager lastGTID) tr m ->
  StronglySorted GTID.lt (allocations tr) /\
  StronglySorted GTID.le
    (GTIDManager._minLiveGTID (GTIDManager.GTIDManager lastGTID) :: minLives tr).
Proof.
  intros Hexec.
  destruct (exec_sorted dbg _ tr m Hexec (manager_inv_new lastGTID))
    as (_ & Halloc & Hge & Hmins).
  split; [exact Halloc |].
  constructor; [exact Hmins |].
  eapply Forall_impl; [| exact Hge]. cbn. intros g Hg. now apply le_value.
Qed.

Lemma allocations_increasing_witness :
  exec false one_primary (GTIDManager.GTIDManager (gtid 5 7))
    (fst release_run) (snd release_run) /\
  run true one_primary release_ops (GTIDManager.GTIDManager (gtid 5 7)) = None /\
  allocations (fst release_run) = [gtid 5 8; gtid 5 9; gtid 5 13] /\
  minLives (fst release_run) =
    [gtid 5 8; gtid 5 8; gtid 5 9; gtid 5 9; gtid 5 10;
     gtid 5 12; gtid 5 12; gtid 5 12; gtid 5 13; gtid 5 13; gtid 5 13;
     gtid 5 13] /\
  StronglySorted GTID.lt (allocations (fst release_run)) /\
  StronglySorted GTID.le
    (GTIDManager._minLiveGTID (GTIDManager.GTIDManager (gtid 5 7))
       :: minLives (fst release_run)).
Proof.
  assert (H : exec false one_primary (GTIDManager.GTIDManager (gtid 5 7))
                (fst release_run) (snd release_run)).
  { apply (run_exec false one_primary release_ops). vm_compute. reflexivity. }
  split; [exact H |]. repeat (split; [reflexivity |]).
  exact (allocations_increasing false (gtid 5 7) _ _ H).
Defined.

(** C6, as stated, fails, in three ways.  On a manager constructed from
    [(0, 2^64 - 2)], two allocations made one after the other, every call
    under its precondition, return [(0, 2^64 - 1)] and then [(0, 0)]: the
    later GTID is the smaller one.  In a release build, where a failed
    [dassert] stops nothing, [noteGTIDAdded] with a GTID below
    [nextLiveGTID] makes the next allocation return that GTID, below the
    one returned before, and [minLiveGTID] go down with it; and
    [noteGTIDAdded] while a GTID is live, followed by [noteLiveGTIDDone] on
    the GTID that was added, brings [minLiveGTID] back down to the GTID
    still live.  None of the three runs calls [resetManager]. *)
Lemma allocations_out_of_order :
  (exec true no_reset last_seq_manager (fst wrapping_run) (snd wrapping_run) /\
   allocations (fst wrapping_run) = [gtid 0 UINT64_MAX; gtid 0 0] /\
   GTID.cmp (gtid 0 UINT64_MAX) (gtid 0 0) = 1 /\
   ~ StronglySorted GTID.lt (allocations (fst wrapping_run)) /\
   run true one_primary wrapping_ops last_seq_manager = None) /\
  (exec false not_reset (GTIDManager.GTIDManager (gtid 5 7))
     (fst added_below_run) (snd added_below_run) /\
   allocations (fst added_below_run) = [gtid 5 8; gtid 5 3] /\
   minLives (fst added_below_run) = [gtid 5 8; gtid 5 9; gtid 5 3; gtid 5 3] /\
   ~ StronglySorted GTID.lt (allocations (fst added_below_run)) /\
   ~ StronglySorted GTID.le
       (GTIDManager._minLiveGTID (GTIDManager.GTIDManager (gtid 5 7))
          :: minLives (fst added_below_run)) /\
   run false one_primary added_below_ops (GTIDManager.GTIDManager (gtid 5 7))
     = None) /\
  (exec false not_reset (GTIDManager.GTIDManager (gtid 5 7))
     (fst added_with_live_run) (snd added_with_live_run) /\
   minLives (fst added_with_live_run) = [gtid 5 8; gtid 5 12; gtid 5 8] /\
   ~ StronglySorted GTID.le
       (GTIDManager._minLiveGTID (GTIDManager.GTIDManager (gtid 5 7))
          :: minLives (fst added_with_live_run)) /\
   run false one_primary added_with_live_ops (GTIDManager.GTIDManager (gtid 5 7))
     = None).
Proof.
  split; [split; [| split; [| split; [| split]]]
         | split; [split; [| split; [| split; [| split; [| split]]]]
                  | split; [| split; [| split]]]].
  - apply (run_exec true no_reset wrapping_ops). vm_compute. reflexivity.
  - reflexivity.
  - reflexivity.
  - intros H. inversion H as [| ? ? _ Hlt]; subst.
    inversion Hlt as [| ? ? Hab _]; subst. revert Hab. decide_order.
  - reflexivity.
  - apply (run_exec false not_reset added_below_ops). vm_compute. reflexivity.
  - reflexivity.
  - reflexivity.
  - intros H. inversion H as [| ? ? _ Hlt]; subst.
    inversion Hlt as [| ? ? Hab _]; subst. revert Hab. decide_order.
  - intros H. inversion H as [| ? ? H1 _]; subst.
    inversion H1 as [| ? ? H2 _]; subst.
    inversion H2 as [| ? ? _ Hle]; subst.
    inversion Hle as [| ? ? Hab _]; subst. revert Hab. decide_order.
  - reflexivity.
  - apply (run_exec false not_reset added_with_live_ops). vm_compute. reflexivity.
  - reflexivity.
  - intros H. inversion H as [| ? ? H1 _]; subst.
    inversion H1 as [| ? ? H2 _]; subst.
    inversion H2 as [| ? ? _ Hle]; subst.
    inversion Hle as [| ? ? Hab _]; subst. revert Hab. decide_order.
  - reflexivity.
Qed.

(** ** Write flags *)

(** C9. The flags of write operations are single bits: [NO_LOCKTREE] is
    bit 0 (value 1), [NO_UNIQUE_CHECKS] bit 1 (value 2),
    [KEYS_UNAFFECTED_HINT] bit 2 (value 4) and [NO_PK_UNIQUE_CHECKS] bit 3
    (value 8); each has that bit set and no other. *)
Theorem write_flag_bits :
  (word.unsigned Collection.NO_LOCKTREE = 1 /\
   word.unsigned Collection.NO_UNIQUE_CHECKS = 2 /\
   word.unsigned Collection.KEYS_UNAFFECTED_HINT = 4 /\
   word.unsigned Collection.NO_PK_UNIQUE_CHECKS = 8) /\
  (forall i : Z,
     Z.testbit (word.unsigned Collection.NO_LOCKTREE) i = (i =? 0) /\
     Z.testbit (word.unsigned Collection.NO_UNIQUE_CHECKS) i = (i =? 1) /\
     Z.testbit (word.unsigned Collection.KEYS_UNAFFECTED_HINT) i = (i =? 2) /\
     Z.testbit (word.unsigned Collection.NO_PK_UNIQUE_CHECKS) i = (i =? 3)).
Proof.
  split; [repeat split |].
  intros i.
  change (word.unsigned Collection.NO_LOCKTREE) with (2 ^ 0).
  change (word.unsigned Collection.NO_UNIQUE_CHECKS) with (2 ^ 1).
  change (word.unsigned Collection.KEYS_UNAFFECTED_HINT) with (2 ^ 2).
  change (word.unsigned Collection.NO_PK_UNIQUE_CHECKS) with (2 ^ 3).
  rewrite !Z.pow2_bits_eqb by lia.
  repeat split; apply Z.eqb_sym.
Qed.

(** ** The index vector *)

Lemma signed_int_of_size (n : nat) :
  Z.of_nat n <= INT_MAX -> word.signed (int_of_size n) = Z.of_nat n.
Proof.
  unfold INT_MAX, int_of_size, Int. intros Hn.
  rewrite word.signed_of_Z. apply word.swrap_inrange.
  change (32 - 1) with 31. lia.
Qed.

(** The low 32 bits of a size, read as an [int], do not exceed the size. *)
Lemma signed_int_of_size_le (n : nat) :
  word.signed (int_of_size n) <= Z.of_nat n.
Proof.
  unfold int_of_size, Int. rewrite word.signed_of_Z. unfold word.swrap.
  pose proof (Z.mod_le (Z.of_nat n + 2 ^ (32 - 1)) (2 ^ 32) ltac:(lia) ltac:(lia)).
  lia.
Qed.

Lemma signed_Int_small (z : Z) :
  - 2 ^ 31 <= z < 2 ^ 31 -> word.signed (Int z) = z.
Proof.
  intros Hz. unfold Int. rewrite word.signed_of_Z. apply word.swrap_inrange.
  change (32 - 1) with 31. lia.
Qed.

Lemma verify_Some (c : bool) (u : unit) : verify c = Some u -> c = true.
Proof. destruct c; [reflexivity | discriminate]. Qed.

Ltac run_verify H :=
  repeat match type of H with
    | match verify ?c with _ => _ end = _ =>
        let Hc := fresh "Hc" in
        destruct (verify c) as [[] |] eqn:Hc; [| discriminate H];
        apply verify_Some in Hc
    end.

(** C8. [nIndexesBeingBuilt()] returns exactly when its consistency check
    passes, and then returns [indexes.size()] as an [int]: the check is
    that [nIndexes + 1], during an index build, or [nIndexes], with none in
    progress, equals that [int].  On an index vector whose size an [int]
    can hold this reads in whole numbers: when [nIndexes] is
    [indexes.size() - 1] during a build, or [indexes.size()] with none in
    progress, the call returns [indexes.size()], which is [nIndexes() + 1]
    during a build and [nIndexes()] otherwise; when [nIndexes] is anything
    else the call throws; so whenever the call returns, it returns
    [indexes.size()] and [nIndexes] has the value just said. *)
Theorem nIndexesBeingBuilt_spec {IndexDetails : Type}
  (c : CollectionBase.t IndexDetails) :
  (forall n : int,
     CollectionBase.nIndexesBeingBuilt c = Some n ->
     n = int_of_size (length (CollectionBase._indexes c)) /\
     (if CollectionBase.indexBuildInProgress c
      then word.add (CollectionBase.nIndexes c) (Int 1)
      else CollectionBase.nIndexes c) = n) /\
  ((if CollectionBase.indexBuildInProgress c
    then word.add (CollectionBase.nIndexes c) (Int 1)
    else CollectionBase.nIndexes c)
   = int_of_size (length (CollectionBase._indexes c)) ->
   CollectionBase.nIndexesBeingBuilt c
   = Some (int_of_size (length (CollectionBase._indexes c)))) /\
  (Z.of_nat (length (CollectionBase._indexes c)) <= INT_MAX ->
   (word.signed (CollectionBase.nIndexes c) =
      (if CollectionBase.indexBuildInProgress c
       then Z.of_nat (length (CollectionBase._indexes c)) - 1
       else Z.of_nat (length (CollectionBase._indexes c))) ->
    exists n : int,
      CollectionBase.nIndexesBeingBuilt c = Some n /\
      word.signed n = Z.of_nat (length (CollectionBase._indexes c)) /\
      word.signed n =
        word.signed (CollectionBase.nIndexes c) +
        (if CollectionBase.indexBuildInProgress c then 1 else 0)) /\
   (word.signed (CollectionBase.nIndexes c) <>
      (if CollectionBase.indexBuildInProgress c
       then Z.of_nat (length (CollectionBase._indexes c)) - 1
       else Z.of_nat (length (CollectionBase._indexes c))) ->
    CollectionBase.nIndexesBeingBuilt c = None) /\
   (forall n : int,
      CollectionBase.nIndexesBeingBuilt c = Some n ->
      word.signed n = Z.of_nat (length (CollectionBase._indexes c)) /\
      word.signed (CollectionBase.nIndexes c) =
        (if CollectionBase.indexBuildInProgress c
         then Z.of_nat (length (CollectionBase._indexes c)) - 1
         else Z.of_nat (length (CollectionBase._indexes c))) /\
      word.signed n =
        word.signed (CollectionBase.nIndexes c) +
        (if CollectionBase.indexBuildInProgress c then 1 else 0))).
Proof.
  assert (Hword : forall n : int,
            CollectionBase.nIndexesBeingBuilt c = Some n ->
            n = int_of_size (length (CollectionBase._indexes c)) /\
            (if CollectionBase.indexBuildInProgress c
             then word.add (CollectionBase.nIndexes c) (Int 1)
             else CollectionBase.nIndexes c) = n).
  { intros n Hrun. unfold CollectionBase.nIndexesBeingBuilt in Hrun.
    unfold CollectionBase.nIndexes, CollectionBase.indexBuildInProgress.
    destruct (CollectionBase._indexBuildInProgress c); run_verify Hrun;
      injection Hrun as <-; apply word.eqb_true in Hc; now split. }
  assert (Hreturns :
            (if CollectionBase.indexBuildInProgress c
             then word.add (CollectionBase.nIndexes c) (Int 1)
             else CollectionBase.nIndexes c)
            = int_of_size (length (CollectionBase._indexes c)) ->
            CollectionBase.nIndexesBeingBuilt c
            = Some (int_of_size (length (CollectionBase._indexes c)))).
  { unfold CollectionBase.nIndexesBeingBuilt, CollectionBase.nIndexes,
      CollectionBase.indexBuildInProgress.
    destruct (CollectionBase._indexBuildInProgress c); intros ->;
      rewrite word.eqb_eq by reflexivity; reflexivity. }
  split; [exact Hword |]. split; [exact Hreturns |].
  intros Hsize. pose proof (signed_int_of_size _ Hsize) as Hlen.
  assert (Hwhole : forall n : int,
            CollectionBase.nIndexesBeingBuilt c = Some n ->
            word.signed n = Z.of_nat (length (CollectionBase._indexes c)) /\
            word.signed (CollectionBase.nIndexes c) =
              (if CollectionBase.indexBuildInProgress c
               then Z.of_nat (length (CollectionBase._indexes c)) - 1
               else Z.of_nat (length (CollectionBase._indexes c))) /\
            word.signed n =
              word.signed (CollectionBase.nIndexes c) +
              (if CollectionBase.indexBuildInProgress c then 1 else 0)).
  { intros n Hrun. destruct (Hword n Hrun) as [-> Hc]. revert Hc.
    unfold CollectionBase.nIndexes, CollectionBase.indexBuildInProgress.
    destruct (CollectionBase._indexBuildInProgress c); intros Hc.
    - apply (f_equal word.signed) in Hc.
      rewrite word.signed_add, Hlen, (signed_Int_small 1) in Hc by lia.
      pose proof (word.signed_range (CollectionBase._nIndexes c)) as Hr.
      destruct (Z.eq_dec (word.signed (CollectionBase._nIndexes c)) (2 ^ 31 - 1))
        as [Hmax | Hmax].
      + rewrite Hmax in Hc.
        change (word.swrap (word := int) (2 ^ 31 - 1 + 1)) with (- 2 ^ 31) in Hc.
        lia.
      + rewrite word.swrap_inrange in Hc by lia. lia.
    - rewrite Hc. lia. }
  split; [| split; [| exact Hwhole]].
  - intros Hcons. exists (int_of_size (length (CollectionBase._indexes c))).
    assert (Hrun : CollectionBase.nIndexesBeingBuilt c
                   = Some (int_of_size (length (CollectionBase._indexes c)))).
    { apply Hreturns. apply word.signed_inj. revert Hcons.
      unfold CollectionBase.nIndexes, CollectionBase.indexBuildInProgress.
      destruct (CollectionBase._indexBuildInProgress c); intros Hcons.
      - rewrite word.signed_add, Hcons, (signed_Int_small 1), Hlen by lia.
        replace (Z.of_nat (length (CollectionBase._indexes c)) - 1 + 1)
          with (Z.of_nat (length (CollectionBase._indexes c))) by lia.
        apply word.swrap_inrange. unfold INT_MAX in Hsize.
        change (32 - 1) with 31. lia.
      - now rewrite Hlen. }
    split; [exact Hrun |].
    destruct (Hwhole _ Hrun) as (H1 & _ & H3). now split.
  - intros Hcons.
    destruct (CollectionBase.nIndexesBeingBuilt c) as [n |] eqn:Hrun;
      [| reflexivity].
    exfalso. apply Hcons. now destruct (Hwhole n eq_refl) as (_ & H2 & _).
Qed.

Lemma nIndexesBeingBuilt_spec_witness :
  (Z.of_nat (length (CollectionBase._indexes building_collection)) <= INT_MAX /\
   CollectionBase.indexBuildInProgress building_collection = true /\
   word.signed (CollectionBase.nIndexes building_collection) = 3 - 1 /\
   exists n : int,
     CollectionBase.nIndexesBeingBuilt building_collection = Some n /\
     word.signed n = 3 /\
     word.signed n = word.signed (CollectionBase.nIndexes building_collection) + 1) /\
  (Z.of_nat (length (CollectionBase._indexes three_indexes)) <= INT_MAX /\
   CollectionBase.indexBuildInProgress three_indexes = false /\
   word.signed (CollectionBase.nIndexes three_indexes) = 3 /\
   exists n : int,
     CollectionBase.nIndexesBeingBuilt three_indexes = Some n /\
     word.signed n = 3 /\
     word.signed n = word.signed (CollectionBase.nIndexes three_indexes) + 0).
Proof.
  assert (Hb : Z.of_nat (length (CollectionBase._indexes building_collection))
               <= INT_MAX) by (vm_compute; congruence).
  assert (Ht : Z.of_nat (length (CollectionBase._indexes three_indexes))
               <= INT_MAX) by (vm_compute; congruence).
  split.
  - split; [exact Hb |]. split; [reflexivity |]. split; [reflexivity |].
    exact (proj1 (proj2 (proj2 (nIndexesBeingBuilt_spec building_collection)) Hb)
             eq_refl).
  - split; [exact Ht |]. split; [reflexivity |]. split; [reflexivity |].
    exact (proj1 (proj2 (proj2 (nIndexesBeingBuilt_spec three_indexes)) Ht)
             eq_refl).
Defined.

(** C10. [idx(idxNo)] reaches the index vector only behind its two
    assertions, [idxNo < NIndexesMax] and
    [0 <= idxNo < indexes.size()]: it never reads outside the vector, and
    what it returns is the element at position [idxNo], with [idxNo] below
    64 and inside the vector.  On a vector of at most 64 indexes, every
    [idxNo] with [0 <= idxNo < indexes.size()] passes both assertions and
    gets the element at position [idxNo]. *)
Theorem idx_in_bounds {IndexDetails : Type} (c : CollectionBase.t IndexDetails)
  (idxNo : int) :
  word.signed Collection.NIndexesMax = 64 /\
  CollectionBase.idx c idxNo <> Some None /\
  (forall d : IndexDetails,
     CollectionBase.idx c idxNo = Some (Some d) ->
     0 <= word.signed idxNo < 64 /\
     word.signed idxNo < Z.of_nat (length (CollectionBase._indexes c)) /\
     nth_error (CollectionBase._indexes c) (Z.to_nat (word.signed idxNo)) = Some d) /\
  (Z.of_nat (length (CollectionBase._indexes c)) <= 64 ->
   0 <= word.signed idxNo < Z.of_nat (length (CollectionBase._indexes c)) ->
   exists d : IndexDetails,
     CollectionBase.idx c idxNo = Some (Some d) /\
     nth_error (CollectionBase._indexes c) (Z.to_nat (word.signed idxNo)) = Some d).
Proof.
  assert (Hmax : word.signed Collection.NIndexesMax = 64) by reflexivity.
  assert (Hpass : forall o, CollectionBase.idx c idxNo = Some o ->
            0 <= word.signed idxNo < 64 /\
            word.signed idxNo < Z.of_nat (length (CollectionBase._indexes c)) /\
            o = nth_error (CollectionBase._indexes c) (Z.to_nat (word.signed idxNo))).
  { intros o Hrun. unfold CollectionBase.idx in Hrun. run_verify Hrun.
    injection Hrun as <-.
    apply andb_prop in Hc0 as [Hge Hlt]. apply negb_true_iff in Hge.
    rewrite word.signed_lts in Hc, Hge, Hlt.
    rewrite Hmax in Hc. rewrite (signed_Int_small 0) in Hge by lia.
    apply Z.ltb_lt in Hc, Hlt. apply Z.ltb_ge in Hge.
    pose proof (signed_int_of_size_le (length (CollectionBase._indexes c))).
    unfold vector_at, size_of_int. rewrite Z.mod_small by lia.
    repeat split; lia. }
  split; [exact Hmax |]. split; [| split].
  - intros Hrun. destruct (Hpass _ Hrun) as (Hi & Hlt & Hnone).
    symmetry in Hnone. apply nth_error_None in Hnone. lia.
  - intros d Hrun. destruct (Hpass _ Hrun) as (Hi & Hlt & Hd).
    repeat split; try lia. now symmetry.
  - intros Hsize Hi.
    destruct (nth_error (CollectionBase._indexes c) (Z.to_nat (word.signed idxNo)))
      as [d |] eqn:Hd; [| apply nth_error_None in Hd; lia].
    exists d. split; [| reflexivity].
    unfold CollectionBase.idx.
    assert (H1 : word.lts idxNo Collection.NIndexesMax = true)
      by (rewrite word.signed_lts, Hmax; apply Z.ltb_lt; lia).
    assert (H2 : negb (word.lts idxNo (Int 0)) &&
                 word.lts idxNo (int_of_size (length (CollectionBase._indexes c)))
                 = true).
    { rewrite !word.signed_lts, (signed_Int_small 0) by lia.
      rewrite signed_int_of_size by (unfold INT_MAX; lia).
      apply andb_true_intro. split;
        [apply negb_true_iff, Z.ltb_ge | apply Z.ltb_lt]; lia. }
    rewrite H1, H2. cbn [verify].
    unfold vector_at, size_of_int. rewrite Z.mod_small by lia. now rewrite Hd.
Qed.

Lemma idx_in_bounds_witness :
  Z.of_nat (length (CollectionBase._indexes building_collection)) <= 64 /\
  0 <= word.signed (Int 2 : int)
    < Z.of_nat (length (CollectionBase._indexes building_collection)) /\
  CollectionBase.idx building_collection (Int 2) = Some (Some 30%nat) /\
  exists d : nat,
    CollectionBase.idx building_collection (Int 2) = Some (Some d) /\
    nth_error (CollectionBase._indexes building_collection)
      (Z.to_nat (word.signed (Int 2 : int))) = Some d.
Proof.
  assert (Hsize : Z.of_nat (length (CollectionBase._indexes building_collection))
                  <= 64) by (vm_compute; congruence).
  assert (Hi : 0 <= word.signed (Int 2 : int)
               < Z.of_nat (length (CollectionBase._indexes building_collection)))
    by (vm_compute; split; congruence).
  split; [exact Hsize |]. split; [exact Hi |]. split; [reflexivity |].
  exact (proj2 (proj2 (proj2 (idx_in_bounds building_collection (Int 2))))
           Hsize Hi).
Defined.

(** ** The scenarios of the specification *)

(** S6: from [GTID(5, 7)], the allocations are [(5, 8)] and [(5, 9)];
    [minLiveGTID] is [(5, 8)], then [(5, 9)] once [(5, 8)] is done, then
    [(5, 10)] once [(5, 9)] is done; after [resetManager((5, 9))] the next
    GTID is [(6, 0)]. *)
Example S6_scenario :
  allocations (fst S6_run) = [gtid 5 8; gtid 5 9] /\
  minLives (fst S6_run) = [gtid 5 8; gtid 5 8; gtid 5 9; gtid 5 10; gtid 6 0] /\
  GTIDManager._nextLiveGTID (snd S6_run) = gtid 6 0.
Proof. repeat split; reflexivity. Qed.

(** S7: on a little-endian host [GTID(1, 2)] is written as
    [00 00 00 00 00 00 00 01 00 00 00 00 00 00 00 02] and read back as
    [(1, 2)]. *)
Example S7_encoding :
  map byte.unsigned (GTID.serializeBinaryData LittleEndian (gtid 1 2)) =
    [0; 0; 0; 0; 0; 0; 0; 1; 0; 0; 0; 0; 0; 0; 0; 2] /\
  GTID.GTID_binData LittleEndian (GTID.serializeBinaryData LittleEndian (gtid 1 2)) =
    Some (gtid 1 2).
Proof. split; reflexivity. Qed.

(** * Further properties *)

(** ** GTID: the byte swap, the comparison and the increments *)

Lemma byte_at_SWAP64 (x : u64) (k : Z) :
  0 <= k < 8 ->
  Z.shiftr (word.unsigned (SWAP64 x)) (8 * k) mod 2 ^ 8 =
  Z.shiftr (word.unsigned x) (8 * (7 - k)) mod 2 ^ 8.
Proof.
  intros Hk. apply Z.bits_inj'. intros i Hi.
  rewrite !Z.testbit_mod_pow2 by lia.
  destruct (Z.ltb_spec i 8); cbn [andb]; [| reflexivity].
  rewrite !Z.shiftr_spec by lia.
  replace (i + 8 * k) with (8 * k + i) by lia.
  rewrite testbit_SWAP64 by lia. f_equal. lia.
Qed.

(** X1. [SWAP64] reverses the eight bytes of its argument: byte [k] of the
    result is byte [7 - k] of the argument; applied twice it gives the
    argument back, and it maps different words to different words. *)
Theorem SWAP64_reverses_bytes :
  (forall (x : u64) (k : Z),
     0 <= k < 8 ->
     Z.shiftr (word.unsigned (SWAP64 x)) (8 * k) mod 2 ^ 8 =
     Z.shiftr (word.unsigned x) (8 * (7 - k)) mod 2 ^ 8) /\
  (forall x : u64, SWAP64 (SWAP64 x) = x) /\
  (forall x y : u64, SWAP64 x = SWAP64 y -> x = y).
Proof.
  split; [exact byte_at_SWAP64 | split; [exact SWAP64_involutive |]].
  intros x y H. rewrite <- (SWAP64_involutive x), <- (SWAP64_involutive y).
  now rewrite H.
Qed.

Lemma SWAP64_reverses_bytes_witness :
  Z.shiftr (word.unsigned (SWAP64 (U64 0x0102030405060708))) (8 * 0) mod 2 ^ 8 = 1 /\
  Z.shiftr (word.unsigned (SWAP64 (U64 0x0102030405060708))) (8 * 7) mod 2 ^ 8 = 8 /\
  (SWAP64 (U64 1) = SWAP64 (U64 1) -> U64 1 = U64 1).
Proof.
  destruct SWAP64_reverses_bytes as (Hbyte & _ & Hinj).
  split; [| split].
  - rewrite (Hbyte (U64 0x0102030405060708) 0) by lia. reflexivity.
  - rewrite (Hbyte (U64 0x0102030405060708) 7) by lia. reflexivity.
  - exact (Hinj (U64 1) (U64 1)).
Defined.

(** X2. [GTID::cmp] is a consistent three-way comparison: swapping the
    arguments negates the result, the result is zero exactly on equal
    GTIDs, and "negative" is transitive and total on different GTIDs. *)
Theorem cmp_total_order :
  (forall a b : GTID, GTID.cmp b a = - GTID.cmp a b) /\
  (forall a b : GTID, GTID.cmp a b = 0 <-> a = b) /\
  (forall a b c : GTID, GTID.cmp a b < 0 -> GTID.cmp b c < 0 -> GTID.cmp a c < 0) /\
  (forall a b c : GTID, GTID.cmp a b <= 0 -> GTID.cmp b c <= 0 -> GTID.cmp a c <= 0) /\
  (forall a b : GTID, a <> b -> GTID.cmp a b < 0 \/ GTID.cmp b a < 0).
Proof.
  split; [| split; [| split; [| split]]].
  - intros a b. rewrite !cmp_value, (Z.compare_antisym (value a) (value b)).
    destruct (value a ?= value b); reflexivity.
  - exact cmp_eq.
  - intros a b c Hab Hbc. apply lt_value. apply lt_value in Hab, Hbc. lia.
  - intros a b c Hab Hbc. apply le_value. apply le_value in Hab, Hbc. lia.
  - intros a b Hne.
    destruct (Z.lt_total (value a) (value b)) as [H | [H | H]].
    + left. now apply lt_value.
    + exfalso. apply Hne. now apply value_inj.
    + right. now apply lt_value.
Qed.

Lemma cmp_total_order_witness :
  GTID.cmp (gtid 5 9) (gtid 6 0) < 0 /\ GTID.cmp (gtid 6 0) (gtid 6 1) < 0 /\
  GTID.cmp (gtid 5 9) (gtid 6 1) < 0 /\
  GTID.cmp (gtid 6 1) (gtid 5 9) = - GTID.cmp (gtid 5 9) (gtid 6 1).
Proof.
  destruct cmp_total_order as (Hanti & _ & Htrans & _ & _).
  assert (H1 : GTID.cmp (gtid 5 9) (gtid 6 0) < 0) by reflexivity.
  assert (H2 : GTID.cmp (gtid 6 0) (gtid 6 1) < 0) by reflexivity.
  split; [exact H1 |]. split; [exact H2 |].
  split; [exact (Htrans _ _ _ H1 H2) | apply Hanti].
Defined.

Lemma seq_max_inc (g : GTID) :
  seq g = UINT64_MAX -> GTID.inc g = GTID.GTID (GTID._primarySeqNo g) (U64 0).
Proof.
  intros Hs. apply GTID_ext; [reflexivity |].
  rewrite seq_inc, Hs. reflexivity.
Qed.

Lemma prim_inc_primary (g : GTID) :
  prim (GTID.inc_primary g) = (prim g + 1) mod 2 ^ 64.
Proof.
  unfold prim, GTID.inc_primary, U64; cbn [GTID._primarySeqNo].
  rewrite word.unsigned_add, word.unsigned_of_Z_1. reflexivity.
Qed.

Lemma seq_inc_primary (g : GTID) : seq (GTID.inc_primary g) = 0.
Proof. reflexivity. Qed.

(** X5. [inc] gives the next GTID in the order, the least GTID above its
    argument, unless [GTSeqNo] is [2^64 - 1], when it wraps to
    [(primarySeqNo, 0)], which is not above the argument.  [inc_primary]
    gives a GTID above every GTID whose [primarySeqNo] is at most that of
    the argument, unless [primarySeqNo] is [2^64 - 1], when the result is
    [(0, 0)], the least GTID of all. *)
Theorem inc_order (g : GTID) :
  (seq g <> UINT64_MAX ->
   GTID.lt g (GTID.inc g) /\
   forall h : GTID, GTID.lt g h -> GTID.le (GTID.inc g) h) /\
  (seq g = UINT64_MAX ->
   GTID.inc g = GTID.GTID (GTID._primarySeqNo g) (U64 0) /\
   GTID.le (GTID.inc g) g) /\
  (prim g <> UINT64_MAX ->
   forall h : GTID, prim h <= prim g -> GTID.lt h (GTID.inc_primary g)) /\
  (prim g = UINT64_MAX ->
   GTID.inc_primary g = GTID.GTID_default /\
   forall h : GTID, GTID.le (GTID.inc_primary g) h).
Proof.
  pose proof (prim_range g) as Hp. pose proof (seq_range g) as Hs.
  split; [| split; [| split]].
  - intros Hne. pose proof (value_inc g Hne) as Hinc. split.
    + apply lt_value. lia.
    + intros h Hh. apply lt_value in Hh. apply le_value. lia.
  - intros Hmax. split; [now apply seq_max_inc |].
    apply le_value. rewrite (seq_max_inc g Hmax). unfold value.
    change (prim (GTID.GTID (GTID._primarySeqNo g) (U64 0))) with (prim g).
    change (seq (GTID.GTID (GTID._primarySeqNo g) (U64 0))) with 0. lia.
  - intros Hne h Hh. apply lt_value. unfold value, UINT64_MAX in *.
    rewrite prim_inc_primary, seq_inc_primary, Z.mod_small by lia.
    pose proof (seq_range h). pose proof (prim_range h). lia.
  - intros Hmax.
    assert (He : GTID.inc_primary g = GTID.GTID_default).
    { apply GTID_ext; [| reflexivity]. rewrite prim_inc_primary, Hmax. reflexivity. }
    split; [exact He |]. intros h. apply le_value. rewrite He.
    pose proof (seq_range h). pose proof (prim_range h).
    change (value GTID.GTID_default) with 0. unfold value. lia.
Qed.

Lemma inc_order_witness :
  GTID.lt (gtid 5 9) (GTID.inc (gtid 5 9)) /\
  GTID.le (GTID.inc (gtid 5 UINT64_MAX)) (gtid 5 UINT64_MAX) /\
  GTID.lt (gtid 5 UINT64_MAX) (GTID.inc_primary (gtid 5 9)) /\
  GTID.inc_primary (gtid UINT64_MAX 9) = GTID.GTID_default.
Proof.
  split; [| split; [| split]].
  - refine (proj1 (proj1 (inc_order (gtid 5 9)) _)). vm_compute. congruence.
  - refine (proj2 (proj1 (proj2 (inc_order (gtid 5 UINT64_MAX))) _)). reflexivity.
  - refine (proj1 (proj2 (proj2 (inc_order (gtid 5 9)))) _ (gtid 5 UINT64_MAX) _);
      vm_compute; congruence.
  - refine (proj1 (proj2 (proj2 (proj2 (inc_order (gtid UINT64_MAX 9)))) _)).
    reflexivity.
Defined.

(** ** The codec, from the side of the buffer *)

Lemma store64_load64 (host : byte_order) (pos : list byte) :
  (sizeof_uint64_t <= length pos)%nat ->
  store64 host (load64 host pos) = firstn sizeof_uint64_t pos.
Proof.
  intros Hlen.
  assert (Hf : length (firstn sizeof_uint64_t pos) = 8%nat)
    by (rewrite length_firstn; unfold sizeof_uint64_t in *; lia).
  assert (Hu : forall bs : list byte, length bs = 8%nat ->
            word.unsigned (U64 (le_combine bs)) = le_combine bs).
  { intros bs Hbs. unfold U64. apply word.unsigned_of_Z_nowrap.
    pose proof (le_combine_bound bs) as Hb. rewrite Hbs in Hb. exact Hb. }
  destruct host; cbn [store64 load64]; unfold sizeof_uint64_t at 1.
  - rewrite Hu by exact Hf. now apply split_le_combine'.
  - rewrite Hu by (now rewrite length_rev).
    rewrite split_le_combine' by (now rewrite length_rev).
    apply rev_involutive.
Qed.

(** X3. Reading a GTID from a buffer and writing it again gives the first
    sixteen bytes of the buffer: with the round trip the other way this
    makes the codec a one-to-one correspondence between GTIDs and
    sixteen-byte strings, and the bytes after the sixteenth play no part.  Different GTIDs have different
    encodings. *)
Theorem GTID_binData_serialize (host : byte_order) :
  (forall (binData : list byte) (g : GTID),
     GTID.GTID_binData host binData = Some g ->
     GTID.serializeBinaryData host g = firstn GTID.GTIDBinarySize binData) /\
  (forall binData rest : list byte,
     length binData = GTID.GTIDBinarySize ->
     GTID.GTID_binData host (binData ++ rest) = GTID.GTID_binData host binData) /\
  (forall g1 g2 : GTID,
     GTID.serializeBinaryData host g1 = GTID.serializeBinaryData host g2 ->
     g1 = g2).
Proof.
  assert (Hdec : forall (binData : list byte) (g : GTID),
            GTID.GTID_binData host binData = Some g ->
            GTID.serializeBinaryData host g = firstn GTID.GTIDBinarySize binData).
  { intros binData g. unfold GTID.GTID_binData.
    destruct (Nat.ltb_spec (length binData) GTID.GTIDBinarySize) as [| Hlen];
      [discriminate |].
    cbv zeta. remember (skipn sizeof_uint64_t binData) as tail eqn:Ht.
    intros [= <-]. unfold GTID.serializeBinaryData, GTID.GTIDBinarySize in *.
    cbn [GTID._primarySeqNo GTID._GTSeqNo]. cbv zeta.
    assert (Htl : (sizeof_uint64_t <= length tail)%nat)
      by (rewrite Ht, length_skipn; unfold sizeof_uint64_t in *; lia).
    rewrite !SWAP64_involutive.
    rewrite !store64_load64 by (unfold sizeof_uint64_t in *; lia).
    rewrite <- (firstn_skipn sizeof_uint64_t
                  (firstn (2 * sizeof_uint64_t) binData)).
    rewrite firstn_firstn, skipn_firstn_comm, <- Ht.
    f_equal. }
  assert (Hround : forall g : GTID,
            GTID.GTID_binData host (GTID.serializeBinaryData host g) = Some g).
  { intros g. unfold GTID.GTID_binData.
    rewrite length_serializeBinaryData, Nat.ltb_irrefl.
    unfold GTID.serializeBinaryData. cbv zeta.
    rewrite load64_store64.
    rewrite <- (length_store64 host (SWAP64 (GTID._primarySeqNo g))) at 1.
    rewrite skipn_app, Nat.sub_diag, skipn_all, skipn_O. cbn [app].
    rewrite <- (app_nil_r (store64 host (SWAP64 (GTID._GTSeqNo g)))).
    rewrite load64_store64, !SWAP64_involutive.
    destruct g; reflexivity. }
  split; [exact Hdec | split].
  - intros binData rest Hlen. unfold GTID.GTID_binData.
    rewrite length_app, Hlen.
    replace (GTID.GTIDBinarySize + length rest <? GTID.GTIDBinarySize)%nat
      with false by (symmetry; apply Nat.ltb_ge; lia).
    rewrite Nat.ltb_irrefl.
    unfold load64, GTID.GTIDBinarySize in *.
    rewrite skipn_app, !firstn_app.
    replace (sizeof_uint64_t - length binData)%nat with 0%nat
      by (unfold sizeof_uint64_t in *; lia).
    replace (sizeof_uint64_t - length (skipn sizeof_uint64_t binData))%nat
      with 0%nat by (rewrite length_skipn; unfold sizeof_uint64_t in *; lia).
    cbn [skipn]. rewrite !firstn_O, !app_nil_r. reflexivity.
  - intros g1 g2 H. apply (f_equal (GTID.GTID_binData host)) in H.
    rewrite !Hround in H. congruence.
Qed.

Lemma GTID_binData_serialize_witness :
  GTID.GTID_binData LittleEndian
    (map byte.of_Z [0; 0; 0; 0; 0; 0; 0; 5; 0; 0; 0; 0; 0; 0; 0; 9; 255; 255]) =
    Some (gtid 5 9) /\
  GTID.serializeBinaryData LittleEndian (gtid 5 9) =
    map byte.of_Z [0; 0; 0; 0; 0; 0; 0; 5; 0; 0; 0; 0; 0; 0; 0; 9].
Proof.
  assert (H : GTID.GTID_binData LittleEndian
            (map byte.of_Z [0; 0; 0; 0; 0; 0; 0; 5; 0; 0; 0; 0; 0; 0; 0; 9; 255; 255])
          = Some (gtid 5 9)) by reflexivity.
  split; [exact H |].
  exact (proj1 (GTID_binData_serialize LittleEndian) _ _ H).
Defined.

Lemma store64_SWAP64 (host : byte_order) (x : u64) :
  store64 host (SWAP64 x) = rev (store64 host x).
Proof.
  destruct host; cbn [store64]; unfold sizeof_uint64_t;
    rewrite le_split_SWAP64; reflexivity.
Qed.

Lemma load64_rev_store64 (host other : byte_order) (x : u64) (rest : list byte) :
  host <> other -> load64 other (store64 host x ++ rest) = load64 host (rev (store64 host x)).
Proof.
  intros Hne.
  assert (Hf : forall h, firstn sizeof_uint64_t (store64 h x ++ rest) = store64 h x).
  { intros h. rewrite <- (length_store64 h x) at 1.
    rewrite firstn_app, Nat.sub_diag, firstn_all, firstn_O. apply app_nil_r. }
  assert (Hr : forall h, firstn sizeof_uint64_t (rev (store64 h x)) = rev (store64 h x)).
  { intros h. rewrite <- (length_store64 h x) at 1. rewrite <- length_rev.
    apply firstn_all. }
  destruct host, other; try congruence; unfold load64; rewrite Hf, Hr;
    cbn [store64]; rewrite ?rev_involutive; reflexivity.
Qed.

(** X4. What [serializeBinaryData] writes depends on the byte order of the
    host: each half is written in the reverse of the order in which the
    host lays out a [uint64_t].  The sixteen bytes are therefore the two
    halves most significant byte first on a little-endian host and least
    significant byte first on a big-endian one, and a GTID written on a host
    of one byte order is read on a host of the other with both halves byte
    swapped. *)
Theorem serializeBinaryData_host_order (g : GTID) :
  (forall host : byte_order,
     GTID.serializeBinaryData host g =
     rev (store64 host (GTID._primarySeqNo g)) ++
     rev (store64 host (GTID._GTSeqNo g))) /\
  GTID.serializeBinaryData BigEndian g =
    le_split 8 (prim g) ++ le_split 8 (seq g) /\
  GTID.serializeBinaryData LittleEndian g =
    rev (le_split 8 (prim g)) ++ rev (le_split 8 (seq g)) /\
  (forall host other : byte_order,
     host <> other ->
     GTID.GTID_binData other (GTID.serializeBinaryData host g) =
     Some (GTID.GTID (SWAP64 (GTID._primarySeqNo g)) (SWAP64 (GTID._GTSeqNo g)))).
Proof.
  assert (Hs : forall host : byte_order,
            GTID.serializeBinaryData host g =
            rev (store64 host (GTID._primarySeqNo g)) ++
            rev (store64 host (GTID._GTSeqNo g))).
  { intros host. unfold GTID.serializeBinaryData. cbv zeta.
    now rewrite !store64_SWAP64. }
  split; [exact Hs | split; [| split]].
  - rewrite Hs. cbn [store64]. now rewrite !rev_involutive.
  - rewrite Hs. reflexivity.
  - intros host other Hne. unfold GTID.GTID_binData.
    rewrite length_serializeBinaryData, Nat.ltb_irrefl.
    unfold GTID.serializeBinaryData. cbv zeta.
    rewrite (load64_rev_store64 host other) by exact Hne.
    rewrite <- (length_store64 host (SWAP64 (GTID._primarySeqNo g))) at 1.
    rewrite skipn_app, Nat.sub_diag, skipn_all, skipn_O. cbn [app].
    rewrite <- (app_nil_r (store64 host (SWAP64 (GTID._GTSeqNo g)))).
    rewrite (load64_rev_store64 host other) by exact Hne.
    rewrite <- !store64_SWAP64.
    rewrite <- (app_nil_r (store64 host (SWAP64 (SWAP64 (GTID._primarySeqNo g))))).
    rewrite <- (app_nil_r (store64 host (SWAP64 (SWAP64 (GTID._GTSeqNo g))))).
    rewrite !load64_store64, !SWAP64_involutive. reflexivity.
Qed.

Lemma serializeBinaryData_host_order_witness :
  LittleEndian <> BigEndian /\
  GTID.GTID_binData BigEndian (GTID.serializeBinaryData LittleEndian (gtid 1 2)) =
    Some (gtid (2 ^ 56) (2 ^ 57)).
Proof.
  assert (Hne : LittleEndian <> BigEndian) by discriminate.
  split; [exact Hne |].
  rewrite (proj2 (proj2 (proj2 (serializeBinaryData_host_order (gtid 1 2))))
             LittleEndian BigEndian Hne).
  reflexivity.
Defined.

(** ** The secondary side of a GTIDManager *)

Lemma cmp_pos (a b : GTID) : (GTID.cmp a b >? 0) = (value b <? value a).
Proof.
  rewrite cmp_value, Z.gtb_ltb.
  destruct (Z.compare_spec (value a) (value b)); cbn [sign]; cmp_lia.
Qed.

Lemma cmp_nonneg (a b : GTID) : (GTID.cmp a b >=? 0) = (value b <=? value a).
Proof.
  rewrite cmp_value, Z.geb_leb.
  destruct (Z.compare_spec (value a) (value b)); cbn [sign]; cmp_lia.
Qed.

Lemma requires_noteApplyingGTID (g : GTID) (m : GTIDManager.t) :
  requires (NoteApplyingGTID g) m = true ->
  value (GTIDManager._minUnappliedGTID m) < value g /\
  value (GTIDManager._nextUnappliedGTID m) <= value g.
Proof.
  unfold requires, step, GTIDManager.noteApplyingGTID, dassert, verify.
  rewrite cmp_pos, cmp_nonneg.
  destruct (Z.ltb_spec (value (GTIDManager._minUnappliedGTID m)) (value g));
    [| discriminate].
  destruct (Z.leb_spec (value (GTIDManager._nextUnappliedGTID m)) (value g));
    [| discriminate].
  now split.
Qed.

Lemma wraps_unapplied_false (g : GTID) :
  wraps_unapplied (NoteApplyingGTID g) = false -> seq g <> UINT64_MAX.
Proof.
  cbn [wraps_unapplied]. rewrite word.unsigned_eqb. unfold U64, seq.
  rewrite word.unsigned_of_Z_nowrap by (cbv; split; congruence).
  intros H. now apply Z.eqb_neq.
Qed.

Lemma secondary_inv_new (lastGTID : GTID) :
  secondary_inv (GTIDManager.GTIDManager lastGTID).
Proof.
  unfold secondary_inv, unapplied_invariant, no_live, GTIDSet.ok,
    GTIDManager.GTIDManager, GTIDSet.empty.
  cbn [GTIDManager._unappliedGTIDs GTIDManager._minUnappliedGTID
       GTIDManager._nextUnappliedGTID GTIDManager._liveGTIDs
       GTIDManager._minLiveGTID GTIDManager._nextLiveGTID].
  repeat split; try constructor; congruence.
Qed.

Lemma min_le_next_unapplied (m : GTIDManager.t) :
  secondary_inv m ->
  value (GTIDManager._minUnappliedGTID m) <= value (GTIDManager._nextUnappliedGTID m).
Proof.
  intros (_ & (_ & Hhi & Hempty & Hmin) & _).
  destruct (GTIDManager._unappliedGTIDs m) as [| h r] eqn:E.
  - rewrite Hempty by reflexivity. lia.
  - rewrite Forall_forall in Hhi.
    specialize (Hhi _ (Hmin ltac:(discriminate))).
    apply lt_value in Hhi. lia.
Qed.

Lemma noteApplyingGTID_inv (dbg : bool) (g : GTID) (m m' : GTIDManager.t) :
  secondary_inv m ->
  value (GTIDManager._minUnappliedGTID m) < value g ->
  value (GTIDManager._nextUnappliedGTID m) <= value g ->
  seq g <> UINT64_MAX ->
  GTIDManager.noteApplyingGTID dbg g m = Some m' ->
  secondary_inv m'.
Proof.
  intros (Hok & (Hlo & Hhi & Hempty & Hmin) & Hlive) Hgm Hgn Hseq Hrun.
  pose proof (value_inc g Hseq) as Hinc.
  unfold GTIDManager.noteApplyingGTID in Hrun. run_dassert Hrun.
  injection Hrun as <-.
  unfold secondary_inv, unapplied_invariant, no_live in *.
  cbn [GTIDManager._unappliedGTIDs GTIDManager._minUnappliedGTID
       GTIDManager._nextUnappliedGTID GTIDManager._liveGTIDs
       GTIDManager._minLiveGTID GTIDManager._nextLiveGTID].
  repeat rewrite Forall_forall in *.
  split; [now apply ok_insert |]. split; [| exact Hlive].
  destruct (GTIDManager._unappliedGTIDs m) as [| h t] eqn:E;
    cbn [GTIDSet.size length Nat.eqb].
  - cbn [GTIDSet.insert]. repeat split.
    + intros x [<- | []]. apply le_value. lia.
    + intros x [<- | []]. apply lt_value. lia.
    + discriminate.
    + intros _. now left.
  - repeat split.
    + intros x Hx. apply In_insert in Hx as [-> | Hx]; [| now apply Hlo].
      apply le_value. lia.
    + intros x Hx. apply lt_value. rewrite Hinc.
      apply In_insert in Hx as [-> | Hx]; [lia |].
      specialize (Hhi x Hx). apply lt_value in Hhi. lia.
    + intros Hnil.
      assert (Hin : In g (GTIDSet.insert g (h :: t))) by (apply In_insert; now left).
      rewrite Hnil in Hin. destruct Hin.
    + intros _. apply In_insert. right. apply Hmin. discriminate.
Qed.

Lemma noteGTIDApplied_inv (dbg : bool) (g : GTID) (m m' : GTIDManager.t) :
  secondary_inv m ->
  GTIDManager.noteGTIDApplied dbg g m = Some m' ->
  secondary_inv m'.
Proof.
  intros (Hok & (Hlo & Hhi & Hempty & Hmin) & Hlive) Hrun.
  unfold GTIDManager.noteGTIDApplied in Hrun. run_dassert Hrun.
  injection Hrun as <-.
  unfold secondary_inv, unapplied_invariant, no_live in *.
  cbn [GTIDManager._unappliedGTIDs GTIDManager._minUnappliedGTID
       GTIDManager._nextUnappliedGTID GTIDManager._liveGTIDs
       GTIDManager._minLiveGTID GTIDManager._nextLiveGTID].
  pose proof (ok_erase g _ Hok) as Hok'.
  split; [exact Hok' |]. split; [| exact Hlive].
  destruct (Z.eqb_spec (GTID.cmp (GTIDManager._minUnappliedGTID m) g) 0)
    as [He | Hne].
  - repeat split; try (now apply Forall_erase).
    + destruct (GTIDSet.erase g (GTIDManager._unappliedGTIDs m)) as [| h r] eqn:E;
        [constructor |].
      cbn [GTIDSet.size length Nat.eqb]. rewrite <- E in *.
      now apply begin_least.
    + intros ->. reflexivity.
    + destruct (GTIDSet.erase g (GTIDManager._unappliedGTIDs m)) as [| h r];
        [congruence |].
      intros _. now left.
  - assert (Hg : GTIDManager._minUnappliedGTID m <> g)
      by (intros Heq; apply Hne; now apply cmp_eq).
    repeat split; try (now apply Forall_erase).
    + intros Hnil.
      destruct (GTIDManager._unappliedGTIDs m) as [| h r] eqn:E;
        [now apply Hempty |].
      assert (Hin : In (GTIDManager._minUnappliedGTID m) (GTIDSet.erase g (h :: r)))
        by (apply In_erase; [apply Hmin; discriminate | exact Hg]).
      rewrite Hnil in Hin. destruct Hin.
    + intros Hset.
      destruct (GTIDManager._unappliedGTIDs m) as [| h r] eqn:E.
      * exfalso. now apply Hset.
      * apply In_erase; [apply Hmin; discriminate | exact Hg].
Qed.

Ltac split_secondary Hreg Hreq Hsec Hwrap :=
  apply andb_prop in Hreg as [Hreg Hwrap];
  apply andb_prop in Hreg as [Hreq Hsec];
  apply negb_true_iff in Hwrap.

Lemma step_secondary_inv (dbg : bool) (o : op) (m m' : GTIDManager.t)
  (r : option GTID) :
  secondary_inv m -> secondary_regular o m = true ->
  step dbg o m = Some (m', r) -> secondary_inv m'.
Proof.
  intros Hinv Hreg Hstep. split_secondary Hreg Hreq Hsec Hwrap.
  destruct o as [| g | g | g | g | g]; try discriminate Hsec;
    cbn [step] in Hstep;
    match type of Hstep with
    | match ?c with _ => _ end = _ =>
        destruct c as [m1 |] eqn:E; [| discriminate Hstep];
        injection Hstep as <- _
    end.
  - destruct Hinv as (Hok & Hun & Hnil & _).
    unfold GTIDManager.noteGTIDAdded in E. run_dassert E. injection E as <-.
    repeat split; try assumption. all: apply Hun.
  - apply requires_noteApplyingGTID in Hreq as [Hgm Hgn].
    eapply noteApplyingGTID_inv; eauto. now apply wraps_unapplied_false.
  - eapply noteGTIDApplied_inv; eauto.
Qed.

(** What one call of a secondary does to the unapplied watermarks. *)
Lemma step_secondary_monotone (dbg : bool) (o : op) (m m' : GTIDManager.t)
  (r : option GTID) :
  secondary_inv m -> secondary_regular o m = true ->
  step dbg o m = Some (m', r) ->
  value (GTIDManager._minUnappliedGTID m) <= value (GTIDManager._minUnappliedGTID m') /\
  value (GTIDManager._nextUnappliedGTID m) <= value (GTIDManager._nextUnappliedGTID m') /\
  (forall g, o = NoteApplyingGTID g ->
     value (GTIDManager._nextUnappliedGTID m) <= value g /\
     value g < value (GTIDManager._nextUnappliedGTID m')).
Proof.
  intros Hinv Hreg Hstep. pose proof (min_le_next_unapplied m Hinv) as Hmn.
  split_secondary Hreg Hreq Hsec Hwrap.
  destruct o as [| g | g | g | g | g]; try discriminate Hsec;
    cbn [step] in Hstep;
    match type of Hstep with
    | match ?c with _ => _ end = _ =>
        destruct c as [m1 |] eqn:E; [| discriminate Hstep];
        injection Hstep as <- _
    end.
  - unfold GTIDManager.noteGTIDAdded in E. run_dassert E. injection E as <-.
    cbn [GTIDManager._minUnappliedGTID GTIDManager._nextUnappliedGTID].
    repeat split; try lia; discriminate.
  - apply requires_noteApplyingGTID in Hreq as [Hgm Hgn].
    pose proof (value_inc g (wraps_unapplied_false g Hwrap)) as Hinc.
    unfold GTIDManager.noteApplyingGTID in E. run_dassert E. injection E as <-.
    cbn [GTIDManager._minUnappliedGTID GTIDManager._nextUnappliedGTID].
    rewrite Hinc.
    destruct (GTIDSet.size (GTIDManager._unappliedGTIDs m) =? 0)%nat;
      (split; [lia | split; [lia |]]); intros g' [= <-]; lia.
  - destruct Hinv as (Hok & (Hlo & _ & _ & _) & _).
    unfold GTIDManager.noteGTIDApplied in E. run_dassert E. injection E as <-.
    cbn [GTIDManager._minUnappliedGTID GTIDManager._nextUnappliedGTID].
    repeat split; try lia; try discriminate.
    destruct (GTID.cmp (GTIDManager._minUnappliedGTID m) g =? 0); [| lia].
    destruct (GTIDSet.erase g (GTIDManager._unappliedGTIDs m)) as [| h t] eqn:El;
      cbn [GTIDSet.size length Nat.eqb GTIDSet.begin hd]; [exact Hmn |].
    assert (Hin : In h (GTIDManager._unappliedGTIDs m))
      by (apply (In_erase_In g); rewrite El; now left).
    rewrite Forall_forall in Hlo. now apply le_value, Hlo.
Qed.

Lemma exec_secondary (dbg : bool) (m : GTIDManager.t) (tr : list event)
  (m' : GTIDManager.t) :
  exec dbg secondary_regular m tr m' -> secondary_inv m ->
  secondary_inv m' /\
  Forall (fun g => value (GTIDManager._nextUnappliedGTID m) <= value g)
    (applying tr) /\
  StronglySorted GTID.lt (applying tr) /\
  Forall (fun g => value (GTIDManager._minUnappliedGTID m) <= value g)
    (minUnapplieds tr) /\
  StronglySorted GTID.le (minUnapplieds tr).
Proof.
  intros Hexec. induction Hexec as [| m o r m1 tr m2 Ha Hs _ IH]; intros Hinv.
  - cbn. repeat split; try constructor; apply Hinv.
  - pose proof (step_secondary_inv dbg o m m1 r Hinv Ha Hs) as Hinv1.
    destruct (IH Hinv1) as (Hinv2 & Hge & Hsorted & Hmge & Hmsorted).
    destruct (step_secondary_monotone dbg o m m1 r Hinv Ha Hs)
      as (Hmin & Hnext & Harg).
    split; [exact Hinv2 |].
    cbn [applying minUnapplieds map ev_op ev_state]. fold (minUnapplieds tr).
    assert (Hmins :
      Forall (fun g => value (GTIDManager._minUnappliedGTID m) <= value g)
        (GTIDManager._minUnappliedGTID m1 :: minUnapplieds tr) /\
      StronglySorted GTID.le (GTIDManager._minUnappliedGTID m1 :: minUnapplieds tr)).
    { split.
      - constructor; [exact Hmin |].
        eapply Forall_impl; [| exact Hmge]. cbn. intros; lia.
      - constructor; [exact Hmsorted |].
        eapply Forall_impl; [| exact Hmge]. cbn. intros g Hg. now apply le_value. }
    destruct Hmins as [Hm1 Hm2].
    assert (Hweak : Forall (fun g => value (GTIDManager._nextUnappliedGTID m) <= value g)
                      (applying tr))
      by (eapply Forall_impl; [| exact Hge]; cbn; intros; lia).
    destruct o as [| g | g | g | g | g]; try (repeat split; assumption).
    destruct (Harg g eq_refl) as [Hlo Hhi].
    repeat split; try assumption.
    + constructor; [exact Hlo | exact Hweak].
    + constructor; [exact Hsorted |].
      eapply Forall_impl; [| exact Hge]. cbn. intros b Hb. apply lt_value. lia.
Qed.

(** X6. On a secondary, that is in every state reached from construction
    through [noteGTIDAdded], [noteApplyingGTID] and [noteGTIDApplied] made
    under their preconditions, with no [noteApplyingGTID] on a GTID whose
    [GTSeqNo] is [2^64 - 1]: [minUnappliedGTID] is at most every unapplied
    GTID and is itself unapplied when any GTID is, every unapplied GTID is
    below [nextUnappliedGTID], the two coincide when nothing is unapplied;
    and no GTID is live, [minLiveGTID] being equal to [nextLiveGTID]. *)
Theorem unapplied_invariant_reachable (dbg : bool) (lastGTID : GTID)
  (tr : list event) (m : GTIDManager.t) :
  exec dbg secondary_regular (GTIDManager.GTIDManager lastGTID) tr m ->
  unapplied_invariant m /\ no_live m.
Proof.
  intros Hexec.
  apply (exec_secondary dbg _ tr m Hexec (secondary_inv_new lastGTID)).
Qed.

Lemma secondary_exec :
  exec true secondary_regular (GTIDManager.GTIDManager (gtid 5 7))
    (fst secondary_run) (snd secondary_run).
Proof.
  apply (run_exec true secondary_regular secondary_ops). vm_compute. reflexivity.
Defined.

Lemma unapplied_invariant_reachable_witness :
  exec true secondary_regular (GTIDManager.GTIDManager (gtid 5 7))
    (fst secondary_run) (snd secondary_run) /\
  GTIDManager._unappliedGTIDs (snd secondary_run) = [gtid 5 11] /\
  unapplied_invariant (snd secondary_run) /\ no_live (snd secondary_run).
Proof.
  split; [exact secondary_exec |]. split; [reflexivity |].
  exact (unapplied_invariant_reachable true (gtid 5 7) _ _ secondary_exec).
Defined.

(** X7. On a secondary, under the same conditions, the GTIDs passed to
    [noteApplyingGTID] are strictly increasing in the order of the calls
    (the assertions of the call enforce it), and [minUnappliedGTID] never
    decreases from one call to the next. *)
Theorem applying_increasing (dbg : bool) (lastGTID : GTID)
  (tr : list event) (m : GTIDManager.t) :
  exec dbg secondary_regular (GTIDManager.GTIDManager lastGTID) tr m ->
  StronglySorted GTID.lt (applying tr) /\
  StronglySorted GTID.le
    (GTIDManager._minUnappliedGTID (GTIDManager.GTIDManager lastGTID)
       :: minUnapplieds tr).
Proof.
  intros Hexec.
  destruct (exec_secondary dbg _ tr m Hexec (secondary_inv_new lastGTID))
    as (_ & _ & Hsorted & Hge & Hmins).
  split; [exact Hsorted |].
  constructor; [exact Hmins |].
  eapply Forall_impl; [| exact Hge]. cbn. intros g Hg. now apply le_value.
Qed.

Lemma applying_increasing_witness :
  exec true secondary_regular (GTIDManager.GTIDManager (gtid 5 7))
    (fst secondary_run) (snd secondary_run) /\
  applying (fst secondary_run) = [gtid 5 8; gtid 5 9; gtid 5 11] /\
  StronglySorted GTID.lt (applying (fst secondary_run)) /\
  StronglySorted GTID.le
    (GTIDManager._minUnappliedGTID (GTIDManager.GTIDManager (gtid 5 7))
       :: minUnapplieds (fst secondary_run)).
Proof.
  split; [exact secondary_exec |]. split; [reflexivity |].
  exact (applying_increasing true (gtid 5 7) _ _ secondary_exec).
Defined.

(** X8. The first assertion of [noteApplyingGTID] is strict.  Once a
    secondary with nothing unapplied has applied a GTID [g] and noted it
    applied, both unapplied watermarks are [inc g]; [noteApplyingGTID] on
    that very GTID, the successor of [g], then fails its assertion in a
    debug build, while a release build runs it and makes it the one
    unapplied GTID. *)
Theorem noteApplyingGTID_successor (dbg : bool) (g : GTID)
  (m m1 m2 : GTIDManager.t) :
  GTIDManager._unappliedGTIDs m = [] ->
  GTIDManager.noteApplyingGTID dbg g m = Some m1 ->
  GTIDManager.noteGTIDApplied dbg g m1 = Some m2 ->
  GTIDManager._minUnappliedGTID m2 = GTID.inc g /\
  GTIDManager._nextUnappliedGTID m2 = GTID.inc g /\
  GTIDManager._unappliedGTIDs m2 = [] /\
  GTIDManager.noteApplyingGTID true (GTID.inc g) m2 = None /\
  exists m3 : GTIDManager.t,
    GTIDManager.noteApplyingGTID false (GTID.inc g) m2 = Some m3 /\
    GTIDManager._unappliedGTIDs m3 = [GTID.inc g] /\
    GTIDManager._minUnappliedGTID m3 = GTID.inc g.
Proof.
  intros Hnil H1 H2.
  assert (Hgg : forall x : GTID, GTID.cmp x x = 0) by (intros x; now apply cmp_eq).
  unfold GTIDManager.noteApplyingGTID in H1. run_dassert H1.
  rewrite Hnil in H1. cbn [GTIDSet.size length Nat.eqb GTIDSet.insert] in H1.
  injection H1 as <-.
  unfold GTIDManager.noteGTIDApplied in H2. run_dassert H2.
  cbn [GTIDManager._unappliedGTIDs GTIDManager._minUnappliedGTID
       GTIDManager._nextUnappliedGTID GTIDSet.erase] in H2.
  rewrite Hgg in H2. cbn [Z.eqb GTIDSet.size length Nat.eqb] in H2.
  injection H2 as <-.
  cbn [GTIDManager._unappliedGTIDs GTIDManager._minUnappliedGTID
       GTIDManager._nextUnappliedGTID].
  repeat split.
  - unfold GTIDManager.noteApplyingGTID.
    cbn [GTIDManager._minUnappliedGTID]. now rewrite Hgg.
  - eexists. split; [reflexivity |]. split; reflexivity.
Qed.

Lemma noteApplyingGTID_successor_witness :
  GTIDManager._unappliedGTIDs (GTIDManager.GTIDManager (gtid 5 7)) = [] /\
  match GTIDManager.noteApplyingGTID true (gtid 5 8)
          (GTIDManager.GTIDManager (gtid 5 7)) with
  | Some m1 =>
      match GTIDManager.noteGTIDApplied true (gtid 5 8) m1 with
      | Some m2 =>
          GTIDManager._minUnappliedGTID m2 = gtid 5 9 /\
          GTIDManager.noteApplyingGTID true (gtid 5 9) m2 = None
      | None => False
      end
  | None => False
  end.
Proof.
  split; [reflexivity |].
  destruct (GTIDManager.noteApplyingGTID true (gtid 5 8)
              (GTIDManager.GTIDManager (gtid 5 7))) as [m1 |] eqn:E1;
    [| vm_compute in E1; discriminate E1].
  destruct (GTIDManager.noteGTIDApplied true (gtid 5 8) m1) as [m2 |] eqn:E2;
    [| vm_compute in E1; injection E1 as <-; vm_compute in E2; discriminate E2].
  destruct (noteApplyingGTID_successor true (gtid 5 8)
              (GTIDManager.GTIDManager (gtid 5 7)) m1 m2 eq_refl E1 E2)
    as (Hmin & _ & _ & Hfail & _).
  split; [exact Hmin | exact Hfail].
Defined.

(** ** Calls out of place *)

(** X9. [noteGTIDAdded] is a call for a secondary.  On a manager with a
    GTID live (a primary with a transaction in flight) its first assertion
    fails in a debug build; a release build runs it, and with the GTID at
    or above [nextLiveGTID] it leaves [minLiveGTID] above every live
    GTID. *)
Theorem noteGTIDAdded_with_live (dbg : bool) (lastGTID : GTID)
  (tr : list event) (m : GTIDManager.t) (g : GTID) :
  exec dbg regular (GTIDManager.GTIDManager lastGTID) tr m ->
  GTIDManager._liveGTIDs m <> [] ->
  GTIDManager.noteGTIDAdded true g m = None /\
  exists m' : GTIDManager.t,
    GTIDManager.noteGTIDAdded false g m = Some m' /\
    GTIDManager._liveGTIDs m' = GTIDManager._liveGTIDs m /\
    (GTID.le (GTIDManager._nextLiveGTID m) g ->
     Forall (fun x => GTID.lt x (GTIDManager._minLiveGTID m'))
       (GTIDManager._liveGTIDs m')).
Proof.
  intros Hexec Hlive.
  pose proof (exec_manager_inv dbg regular _ tr m (fun o s H => H) Hexec
                (manager_inv_new lastGTID)) as Hinv.
  split.
  - unfold GTIDManager.noteGTIDAdded, dassert, verify.
    destruct (Z.eqb_spec (GTID.cmp (GTIDManager._nextLiveGTID m)
                            (GTIDManager._minLiveGTID m)) 0) as [He | Hne];
      [| reflexivity].
    exfalso. apply Hlive. now apply min_eq_next_no_live.
  - eexists. split; [reflexivity |]. split; [reflexivity |].
    intros Hle. cbn [GTIDManager._liveGTIDs GTIDManager._minLiveGTID].
    destruct Hinv as (_ & _ & _ & Hbelow).
    eapply Forall_impl; [| exact Hbelow]. cbn. intros x Hx.
    apply lt_value. apply lt_value in Hx. apply le_value in Hle. lia.
Qed.

Lemma noteGTIDAdded_with_live_witness :
  exec true regular (GTIDManager.GTIDManager (gtid 5 7))
    (fst two_allocations_run) (snd two_allocations_run) /\
  GTIDManager._liveGTIDs (snd two_allocations_run) = [gtid 5 8; gtid 5 9] /\
  GTIDManager.noteGTIDAdded true (gtid 5 12) (snd two_allocations_run) = None.
Proof.
  assert (H : exec true regular (GTIDManager.GTIDManager (gtid 5 7))
                (fst two_allocations_run) (snd two_allocations_run)).
  { apply (run_exec true regular wrapping_ops). vm_compute. reflexivity. }
  split; [exact H |]. split; [reflexivity |].
  refine (proj1 (noteGTIDAdded_with_live true (gtid 5 7) _ _ (gtid 5 12) H _)).
  vm_compute. congruence.
Defined.

(** A call that returns in some build returns the same in a release
    build. *)
Lemma noteLiveGTIDDone_release (dbg : bool) (g : GTID) (m m' : GTIDManager.t) :
  GTIDManager.noteLiveGTIDDone dbg g m = Some m' ->
  GTIDManager.noteLiveGTIDDone false g m = Some m'.
Proof.
  unfold GTIDManager.noteLiveGTIDDone. intros H. run_dassert H. exact H.
Qed.

Lemma noteLiveGTIDDone_twice (g : GTID) (m m1 : GTIDManager.t) :
  GTIDSet.ok (GTIDManager._liveGTIDs m) ->
  GTIDManager.noteLiveGTIDDone false g m = Some m1 ->
  ~ In g (GTIDManager._liveGTIDs m1) /\
  GTIDManager.noteLiveGTIDDone false g m1 = Some m1.
Proof.
  intros Hok H1. pose proof (not_In_erase g _ Hok) as Hout.
  pose proof (erase_not_In g _ Hout) as Hfix.
  unfold GTIDManager.noteLiveGTIDDone in *. cbn [dassert] in *.
  destruct (Z.eqb_spec (GTID.cmp (GTIDManager._minLiveGTID m) g) 0) as [He | Hne];
    injection H1 as <-;
    cbn [GTIDManager._liveGTIDs GTIDManager._minLiveGTID
         GTIDManager._nextLiveGTID GTIDManager._nextUnappliedGTID
         GTIDManager._minUnappliedGTID GTIDManager._unappliedGTIDs];
    (split; [exact Hout |]); rewrite Hfix.
  - destruct (GTIDSet.erase g (GTIDManager._liveGTIDs m)) as [| h t] eqn:El;
      cbn [GTIDSet.size length Nat.eqb GTIDSet.begin hd].
    + destruct (GTID.cmp (GTIDManager._nextLiveGTID m) g =? 0); reflexivity.
    + destruct (Z.eqb_spec (GTID.cmp h g) 0) as [Hh | Hh]; [| reflexivity].
      apply cmp_eq in Hh. exfalso. apply Hout. now left.
  - destruct (Z.eqb_spec (GTID.cmp (GTIDManager._minLiveGTID m) g) 0);
      [contradiction | reflexivity].
Qed.

(** X10. [noteLiveGTIDDone] removes its GTID from the live ones, and
    calling it a second time on the same GTID changes nothing: whenever
    the second call returns, in either build, the state is the one the
    first call left, and in a release build it does return. *)
Theorem noteLiveGTIDDone_idempotent (dbg dbg' : bool)
  (allowed : op -> GTIDManager.t -> bool) (lastGTID : GTID)
  (tr : list event) (m m1 : GTIDManager.t) (g : GTID) :
  exec dbg allowed (GTIDManager.GTIDManager lastGTID) tr m ->
  GTIDManager.noteLiveGTIDDone dbg g m = Some m1 ->
  ~ In g (GTIDManager._liveGTIDs m1) /\
  GTIDManager.noteLiveGTIDDone false g m1 = Some m1 /\
  (forall m2 : GTIDManager.t,
     GTIDManager.noteLiveGTIDDone dbg' g m1 = Some m2 -> m2 = m1).
Proof.
  intros Hexec H1.
  assert (Hok : GTIDSet.ok (GTIDManager._liveGTIDs m)).
  { apply (exec_ok dbg allowed _ tr m Hexec). constructor. }
  destruct (noteLiveGTIDDone_twice g m m1 Hok (noteLiveGTIDDone_release _ _ _ _ H1))
    as [Hout Hsame].
  split; [exact Hout |]. split; [exact Hsame |].
  intros m2 H2. apply noteLiveGTIDDone_release in H2. congruence.
Qed.

Lemma noteLiveGTIDDone_idempotent_witness :
  exec true primary_only (GTIDManager.GTIDManager (gtid 5 7))
    (fst two_allocations_run) (snd two_allocations_run) /\
  match GTIDManager.noteLiveGTIDDone true (gtid 5 8) (snd two_allocations_run) with
  | Some m1 =>
      GTIDManager._liveGTIDs m1 = [gtid 5 9] /\
      GTIDManager.noteLiveGTIDDone false (gtid 5 8) m1 = Some m1 /\
      GTIDManager.noteLiveGTIDDone true (gtid 5 8) m1 = None
  | None => False
  end.
Proof.
  assert (H : exec true primary_only (GTIDManager.GTIDManager (gtid 5 7))
                (fst two_allocations_run) (snd two_allocations_run)).
  { apply (run_exec true primary_only wrapping_ops). vm_compute. reflexivity. }
  split; [exact H |].
  destruct (GTIDManager.noteLiveGTIDDone true (gtid 5 8) (snd two_allocations_run))
    as [m1 |] eqn:E; [| vm_compute in E; discriminate E].
  destruct (noteLiveGTIDDone_idempotent true true primary_only (gtid 5 7) _ _ m1
              (gtid 5 8) H E) as (_ & Hsame & _).
  split; [| split; [exact Hsame |]];
    vm_compute in E; injection E as <-; reflexivity.
Defined.

(** ** Stepping up *)

(** X11. After [noteGTIDAdded(g)] the next allocation would hand out [g]
    itself, the GTID already in the oplog; after [resetManager(lastGTID)]
    the next allocation is above [lastGTID] and above every GTID of its
    primary or of an earlier one, provided [primarySeqNo] does not wrap
    around. *)
Theorem allocation_after_step_up (dbg : bool) (g : GTID) (m m' : GTIDManager.t) :
  (GTIDManager.noteGTIDAdded dbg g m = Some m' ->
   fst (GTIDManager.getGTIDForPrimary m') = g) /\
  (GTIDManager.resetManager dbg g m = Some m' ->
   prim g <> UINT64_MAX ->
   GTID.lt g (fst (GTIDManager.getGTIDForPrimary m')) /\
   forall h : GTID,
     prim h <= prim g -> GTID.lt h (fst (GTIDManager.getGTIDForPrimary m'))).
Proof.
  split.
  - unfold GTIDManager.noteGTIDAdded. intros H. run_dassert H.
    now injection H as <-.
  - unfold GTIDManager.resetManager. intros H Hp. run_dassert H.
    injection H as <-.
    cbn [GTIDManager.getGTIDForPrimary fst GTIDManager._nextLiveGTID].
    assert (Hall : forall h : GTID, prim h <= prim g ->
              GTID.lt h (GTID.inc_primary g)).
    { intros h Hh. apply lt_value. unfold value, UINT64_MAX in *.
      pose proof (prim_range g). pose proof (prim_range h). pose proof (seq_range h).
      rewrite prim_inc_primary, seq_inc_primary, Z.mod_small by lia. lia. }
    split; [apply Hall; lia | exact Hall].
Qed.

Lemma allocation_after_step_up_witness :
  match GTIDManager.noteGTIDAdded true (gtid 5 9)
          (GTIDManager.GTIDManager (gtid 5 7)) with
  | Some m' => fst (GTIDManager.getGTIDForPrimary m') = gtid 5 9
  | None => False
  end /\
  prim (gtid 5 9) <> UINT64_MAX /\
  match GTIDManager.resetManager true (gtid 5 9)
          (GTIDManager.GTIDManager (gtid 5 7)) with
  | Some m' =>
      fst (GTIDManager.getGTIDForPrimary m') = gtid 6 0 /\
      GTID.lt (gtid 5 9) (fst (GTIDManager.getGTIDForPrimary m'))
  | None => False
  end.
Proof.
  assert (Hp : prim (gtid 5 9) <> UINT64_MAX) by (vm_compute; congruence).
  split; [| split; [exact Hp |]].
  - destruct (GTIDManager.noteGTIDAdded true (gtid 5 9)
                (GTIDManager.GTIDManager (gtid 5 7))) as [m' |] eqn:E;
      [| vm_compute in E; discriminate E].
    exact (proj1 (allocation_after_step_up true (gtid 5 9) _ m') E).
  - destruct (GTIDManager.resetManager true (gtid 5 9)
                (GTIDManager.GTIDManager (gtid 5 7))) as [m' |] eqn:E;
      [| vm_compute in E; discriminate E].
    split.
    + vm_compute in E. injection E as <-. reflexivity.
    + exact (proj1 (proj2 (allocation_after_step_up true (gtid 5 9) _ m') E Hp)).
Defined.

(** ** Where live GTIDs come from *)

Lemma step_live_source (dbg : bool) (o : op) (m m' : GTIDManager.t)
  (r : option GTID) (x : GTID) :
  step dbg o m = Some (m', r) -> In x (GTIDManager._liveGTIDs m') ->
  In x (GTIDManager._liveGTIDs m) \/ r = Some x.
Proof.
  intros Hstep Hin.
  destruct o as [| g | g | g | g | g]; cbn [step] in Hstep;
    [ cbn [GTIDManager.getGTIDForPrimary] in Hstep; injection Hstep as <- <-
    | match type of Hstep with
      | match ?c with _ => _ end = _ =>
          destruct c as [m1 |] eqn:E; [| discriminate Hstep];
          injection Hstep as <- <-
      end .. ].
  - cbn [GTIDManager._liveGTIDs] in Hin.
    apply In_insert in Hin as [-> | Hin]; [now right | now left].
  - left. unfold GTIDManager.noteLiveGTIDDone in E. run_dassert E.
    destruct (GTID.cmp (GTIDManager._minLiveGTID m) g =? 0); injection E as <-;
      cbn [GTIDManager._liveGTIDs] in Hin; eapply In_erase_In, Hin.
  - left. unfold GTIDManager.noteGTIDAdded in E. run_dassert E.
    now injection E as <-.
  - left. unfold GTIDManager.noteApplyingGTID in E. run_dassert E.
    now injection E as <-.
  - left. unfold GTIDManager.noteGTIDApplied in E. run_dassert E.
    now injection E as <-.
  - left. unfold GTIDManager.resetManager in E. run_dassert E.
    now injection E as <-.
Qed.

Lemma exec_live_source (dbg : bool) (allowed : op -> GTIDManager.t -> bool)
  (m : GTIDManager.t) (tr : list event) (m' : GTIDManager.t) (x : GTID) :
  exec dbg allowed m tr m' -> In x (GTIDManager._liveGTIDs m') ->
  In x (GTIDManager._liveGTIDs m) \/ In x (allocations tr).
Proof.
  intros Hexec. induction Hexec as [| m o r m1 tr m2 Ha Hs _ IH]; intros Hin.
  - now left.
  - cbn [allocations ev_ret].
    destruct (IH Hin) as [H1 | Htr].
    + destruct (step_live_source dbg o m m1 r x Hs H1) as [H0 | ->];
        [now left | right; now left].
    + right. destruct r; [now right | exact Htr].
Qed.

(** X12. The live GTIDs of a manager are GTIDs that [getGTIDForPrimary]
    handed out: whatever calls were made since construction, in whatever
    build and whether or not their preconditions held, every element of
    [liveGTIDs] was returned by an earlier [getGTIDForPrimary]. *)
Theorem live_were_allocated (dbg : bool) (allowed : op -> GTIDManager.t -> bool)
  (lastGTID : GTID) (tr : list event) (m : GTIDManager.t) (x : GTID) :
  exec dbg allowed (GTIDManager.GTIDManager lastGTID) tr m ->
  In x (GTIDManager._liveGTIDs m) -> In x (allocations tr).
Proof.
  intros Hexec Hin.
  destruct (exec_live_source dbg allowed _ tr m x Hexec Hin) as [[] | H].
  exact H.
Qed.

Lemma live_were_allocated_witness :
  exec true primary_only (GTIDManager.GTIDManager (gtid 5 7))
    (fst later_done_run) (snd later_done_run) /\
  In (gtid 5 8) (GTIDManager._liveGTIDs (snd later_done_run)) /\
  In (gtid 5 8) (allocations (fst later_done_run)).
Proof.
  assert (H : exec true primary_only (GTIDManager.GTIDManager (gtid 5 7))
                (fst later_done_run) (snd later_done_run)).
  { apply (run_exec true primary_only later_done_ops). vm_compute. reflexivity. }
  assert (Hin : In (gtid 5 8) (GTIDManager._liveGTIDs (snd later_done_run)))
    by (left; reflexivity).
  split; [exact H |]. split; [exact Hin |].
  exact (live_were_allocated true primary_only (gtid 5 7) _ _ _ H Hin).
Defined.

(** ** Looking indexes up *)

Lemma scan_Some {A : Type} (found : A -> bool) (rest : list A) (it n : nat) :
  scan found rest it = Some n ->
  exists k d,
    n = (it + k)%nat /\ nth_error rest k = Some d /\ found d = true /\
    forall j e, (j < k)%nat -> nth_error rest j = Some e -> found e = false.
Proof.
  revert it. induction rest as [| index rest' IH]; intros it; cbn [scan];
    [discriminate |].
  destruct (found index) eqn:Hf.
  - intros [= <-]. exists 0%nat, index. repeat split; [lia | exact Hf |].
    intros j e Hj. lia.
  - intros H. destruct (IH _ H) as (k & d & -> & Hd & Hfd & Hbefore).
    exists (S k), d. repeat split; [lia | exact Hd | exact Hfd |].
    intros [| j] e Hj He; cbn [nth_error] in He.
    + now injection He as <-.
    + eapply Hbefore; [| exact He]. lia.
Qed.

Lemma scan_None {A : Type} (found : A -> bool) (rest : list A) (it : nat) :
  scan found rest it = None <-> (forall d, In d rest -> found d = false).
Proof.
  revert it. induction rest as [| index rest' IH]; intros it; cbn [scan In].
  - split; [intros _ d [] | reflexivity].
  - destruct (found index) eqn:Hf.
    + split; [discriminate |]. intros H. specialize (H index (or_introl eq_refl)).
      congruence.
    + rewrite IH. split.
      * intros H d [<- | Hd]; [exact Hf | now apply H].
      * intros H d Hd. apply H. now right.
Qed.

(** X13. [findIdIndex] returns -1 exactly when no index of the collection
    is an id index; otherwise it returns the position of the first id
    index: the index at that position is an id index and none before it
    is.  (Positions are taken to fit an [int].) *)
Theorem findIdIndex_spec {IndexDetails : Type} (isIdIndex : IndexDetails -> bool)
  (c : CollectionBase.t IndexDetails) :
  Z.of_nat (length (CollectionBase._indexes c)) <= INT_MAX ->
  (word.signed (IndexLookup.findIdIndex isIdIndex c) = -1 <->
   forall d, In d (CollectionBase._indexes c) -> isIdIndex d = false) /\
  (word.signed (IndexLookup.findIdIndex isIdIndex c) <> -1 ->
   exists (n : nat) (d : IndexDetails),
     word.signed (IndexLookup.findIdIndex isIdIndex c) = Z.of_nat n /\
     nth_error (CollectionBase._indexes c) n = Some d /\
     isIdIndex d = true /\
     forall j e, (j < n)%nat ->
       nth_error (CollectionBase._indexes c) j = Some e -> isIdIndex e = false).
Proof.
  intros Hsize. unfold IndexLookup.findIdIndex.
  destruct (scan isIdIndex (CollectionBase._indexes c) 0) as [n |] eqn:E.
  - destruct (scan_Some _ _ _ _ E) as (k & d & -> & Hd & Hfd & Hbefore).
    cbn [Nat.add].
    assert (Hk : (k < length (CollectionBase._indexes c))%nat)
      by (apply nth_error_Some; congruence).
    rewrite signed_int_of_size by (unfold INT_MAX in *; lia).
    split.
    + split; [lia |]. intros Hnone.
      apply nth_error_In in Hd. specialize (Hnone d Hd). congruence.
    + intros _. exists k, d. repeat split; assumption.
  - assert (Hm : word.signed (Int (-1)) = -1) by reflexivity.
    rewrite Hm. split; [| congruence].
    split; [intros _; now apply (scan_None isIdIndex _ 0%nat) | reflexivity].
Qed.

Lemma findIdIndex_spec_witness :
  Z.of_nat (length (CollectionBase._indexes three_indexes)) <= INT_MAX /\
  word.signed (IndexLookup.findIdIndex (Nat.eqb 20) three_indexes) = 1 /\
  word.signed (IndexLookup.findIdIndex (Nat.eqb 40) three_indexes) = -1 /\
  forall d, In d (CollectionBase._indexes three_indexes) -> Nat.eqb 40 d = false.
Proof.
  assert (Hsize : Z.of_nat (length (CollectionBase._indexes three_indexes))
                  <= INT_MAX) by (vm_compute; congruence).
  split; [exact Hsize |]. split; [reflexivity |]. split; [reflexivity |].
  exact (proj1 (proj1 (findIdIndex_spec (Nat.eqb 40) three_indexes Hsize)) eq_refl).
Defined.

(** X14. [idxNo(idx)] throws exactly when [idx] is not an index of the
    collection; otherwise it returns the first position at which [idx]
    sits.  (Positions are taken to fit an [int].) *)
Theorem idxNo_spec {IndexDetails : Type} (same : IndexDetails -> IndexDetails -> bool)
  (c : CollectionBase.t IndexDetails) (idx : IndexDetails) :
  (forall a b, same a b = true <-> a = b) ->
  Z.of_nat (length (CollectionBase._indexes c)) <= INT_MAX ->
  (IndexLookup.idxNo same c idx = None <-> ~ In idx (CollectionBase._indexes c)) /\
  (forall r : int,
     IndexLookup.idxNo same c idx = Some r ->
     exists n : nat,
       word.signed r = Z.of_nat n /\
       nth_error (CollectionBase._indexes c) n = Some idx /\
       forall j, (j < n)%nat ->
         nth_error (CollectionBase._indexes c) j <> Some idx).
Proof.
  intros Hsame Hsize. unfold IndexLookup.idxNo.
  destruct (scan (fun index => same index idx) (CollectionBase._indexes c) 0)
    as [n |] eqn:E.
  - destruct (scan_Some _ _ _ _ E) as (k & d & -> & Hd & Hfd & Hbefore).
    cbn [Nat.add]. apply Hsame in Hfd. subst d.
    assert (Hk : (k < length (CollectionBase._indexes c))%nat)
      by (apply nth_error_Some; congruence).
    split.
    + split; [discriminate |]. intros Hn. exfalso. apply Hn.
      eapply nth_error_In, Hd.
    + intros r [= <-]. exists k.
      rewrite signed_int_of_size by (unfold INT_MAX in *; lia).
      repeat split; [exact Hd |].
      intros j Hj He. specialize (Hbefore j idx Hj He).
      assert (same idx idx = true) by now apply Hsame. congruence.
  - split; [| discriminate]. split; [| reflexivity].
    intros _ Hin.
    pose proof (proj1 (scan_None _ _ 0%nat) E idx Hin) as Hf. cbn in Hf.
    assert (same idx idx = true) by now apply Hsame. congruence.
Qed.

Lemma Nat_eqb_same (a b : nat) : Nat.eqb a b = true <-> a = b.
Proof. apply Nat.eqb_eq. Qed.

Lemma idxNo_spec_witness :
  Z.of_nat (length (CollectionBase._indexes three_indexes)) <= INT_MAX /\
  IndexLookup.idxNo Nat.eqb three_indexes 30%nat = Some (Int 2) /\
  IndexLookup.idxNo Nat.eqb three_indexes 40%nat = None /\
  ~ In 40%nat (CollectionBase._indexes three_indexes).
Proof.
  assert (Hsize : Z.of_nat (length (CollectionBase._indexes three_indexes))
                  <= INT_MAX) by (vm_compute; congruence).
  split; [exact Hsize |]. split; [reflexivity |]. split; [reflexivity |].
  exact (proj1 (proj1 (idxNo_spec Nat.eqb three_indexes 40%nat Nat_eqb_same Hsize))
           eq_refl).
Defined.

Lemma idx_elim {IndexDetails : Type} (c : CollectionBase.t IndexDetails)
  (i : int) (d : IndexDetails) :
  CollectionBase.idx c i = Some (Some d) ->
  0 <= word.signed i < 64 /\
  nth_error (CollectionBase._indexes c) (Z.to_nat (word.signed i)) = Some d.
Proof.
  intros Hrun. unfold CollectionBase.idx in Hrun. run_verify Hrun.
  injection Hrun as Hd.
  apply andb_prop in Hc0 as [Hge Hlt]. apply negb_true_iff in Hge.
  rewrite word.signed_lts in Hc, Hge.
  change (word.signed Collection.NIndexesMax) with 64 in Hc.
  rewrite (signed_Int_small 0) in Hge by lia.
  apply Z.ltb_lt in Hc. apply Z.ltb_ge in Hge.
  unfold vector_at, size_of_int in Hd. rewrite Z.mod_small in Hd by lia.
  split; [lia | exact Hd].
Qed.

Lemma idx_intro {IndexDetails : Type} (c : CollectionBase.t IndexDetails)
  (i : int) (d : IndexDetails) :
  Z.of_nat (length (CollectionBase._indexes c)) <= INT_MAX ->
  0 <= word.signed i < 64 ->
  nth_error (CollectionBase._indexes c) (Z.to_nat (word.signed i)) = Some d ->
  CollectionBase.idx c i = Some (Some d).
Proof.
  intros Hsize Hi Hd.
  assert (Hlt : (Z.to_nat (word.signed i) < length (CollectionBase._indexes c))%nat)
    by (apply nth_error_Some; congruence).
  unfold CollectionBase.idx.
  rewrite !word.signed_lts, (signed_Int_small 0), signed_int_of_size by lia.
  change (word.signed Collection.NIndexesMax) with 64.
  replace (word.signed i <? 64) with true by (symmetry; apply Z.ltb_lt; lia).
  replace (word.signed i <? 0) with false by (symmetry; apply Z.ltb_ge; lia).
  replace (word.signed i <? Z.of_nat (length (CollectionBase._indexes c)))
    with true by (symmetry; apply Z.ltb_lt; lia).
  cbn [verify negb andb]. unfold vector_at, size_of_int.
  rewrite Z.mod_small by lia. now rewrite Hd.
Qed.

(** X15. [idx] and [idxNo] are inverse to each other on a collection of at
    most 64 indexes: [idx(idxNo(d))] is [d] for every index [d] that
    [idxNo] finds, and [idxNo(idx(i))] is [i] for every position [i] that
    [idx] accepts, provided no index sits in the vector twice. *)
Theorem idx_idxNo_inverse {IndexDetails : Type}
  (same : IndexDetails -> IndexDetails -> bool)
  (c : CollectionBase.t IndexDetails) :
  (forall a b, same a b = true <-> a = b) ->
  Z.of_nat (length (CollectionBase._indexes c)) <= 64 ->
  (forall (d : IndexDetails) (r : int),
     IndexLookup.idxNo same c d = Some r ->
     CollectionBase.idx c r = Some (Some d)) /\
  (NoDup (CollectionBase._indexes c) ->
   forall (i : int) (d : IndexDetails),
     CollectionBase.idx c i = Some (Some d) ->
     IndexLookup.idxNo same c d = Some i).
Proof.
  intros Hsame Hsize.
  assert (Hfind : forall d n,
            scan (fun index => same index d) (CollectionBase._indexes c) 0 = Some n ->
            nth_error (CollectionBase._indexes c) n = Some d /\
            forall j, (j < n)%nat ->
              nth_error (CollectionBase._indexes c) j <> Some d).
  { intros d n E. destruct (scan_Some _ _ _ _ E) as (k & e & -> & He & Hfe & Hbefore).
    cbn [Nat.add]. apply Hsame in Hfe. subst e. split; [exact He |].
    intros j Hj Hjd. specialize (Hbefore j d Hj Hjd).
    assert (same d d = true) by now apply Hsame. congruence. }
  split.
  - intros d r. unfold IndexLookup.idxNo.
    destruct (scan (fun index => same index d) (CollectionBase._indexes c) 0)
      as [n |] eqn:E; [| discriminate].
    intros [= <-]. destruct (Hfind d n E) as [Hd _].
    assert (Hn : (n < length (CollectionBase._indexes c))%nat)
      by (apply nth_error_Some; congruence).
    assert (Hs : word.signed (int_of_size n) = Z.of_nat n)
      by (apply signed_int_of_size; unfold INT_MAX; lia).
    apply idx_intro; [unfold INT_MAX; lia | lia |].
    now rewrite Hs, Nat2Z.id.
  - intros Hnodup i d Hrun. destruct (idx_elim c i d Hrun) as [Hi Hd].
    unfold IndexLookup.idxNo.
    destruct (scan (fun index => same index d) (CollectionBase._indexes c) 0)
      as [n |] eqn:E.
    + destruct (Hfind d n E) as [Hn _].
      assert (Heq : n = Z.to_nat (word.signed i)).
      { apply (proj1 (NoDup_nth_error (CollectionBase._indexes c)) Hnodup).
        - apply nth_error_Some. congruence.
        - congruence. }
      f_equal. apply word.signed_inj.
      rewrite signed_int_of_size by (unfold INT_MAX; subst n; lia).
      subst n. lia.
    + exfalso.
      pose proof (proj1 (scan_None _ _ 0%nat) E d (nth_error_In _ _ Hd)) as Hf.
      cbn in Hf. assert (same d d = true) by now apply Hsame. congruence.
Qed.

Lemma idx_idxNo_inverse_witness :
  Z.of_nat (length (CollectionBase._indexes three_indexes)) <= 64 /\
  NoDup (CollectionBase._indexes three_indexes) /\
  CollectionBase.idx three_indexes (Int 1) = Some (Some 20%nat) /\
  IndexLookup.idxNo Nat.eqb three_indexes 20%nat = Some (Int 1).
Proof.
  assert (Hsize : Z.of_nat (length (CollectionBase._indexes three_indexes)) <= 64)
    by (vm_compute; congruence).
  assert (Hnodup : NoDup (CollectionBase._indexes three_indexes)).
  { repeat constructor; cbn; intuition discriminate. }
  assert (Hidx : CollectionBase.idx three_indexes (Int 1) = Some (Some 20%nat))
    by reflexivity.
  split; [exact Hsize |]. split; [exact Hnodup |]. split; [exact Hidx |].
  exact (proj2 (idx_idxNo_inverse Nat.eqb three_indexes Nat_eqb_same Hsize)
           Hnodup (Int 1) 20%nat Hidx).
Defined.

(** X16. [isPKIndex(idx)] answers whether [idx] is the first index of the
    collection, the one [getPKIndex] returns.  In a debug build the call
    returns only if that answer agrees with the comparison of the key
    pattern of [idx] with the primary key: on an index that is not the
    first but has the key pattern of the primary key it fails its
    assertion. *)
Theorem isPKIndex_spec {IndexDetails : Type}
  (same : IndexDetails -> IndexDetails -> bool)
  (hasPKPattern : IndexDetails -> bool) (dbg : bool)
  (c : CollectionBase.t IndexDetails) (idx : IndexDetails) :
  (forall a b, same a b = true <-> a = b) ->
  (forall b : bool,
     IndexLookup.isPKIndex same hasPKPattern dbg c idx = Some (Some b) ->
     (b = true <-> nth_error (CollectionBase._indexes c) 0 = Some idx) /\
     IndexLookup.getPKIndex hasPKPattern dbg c =
       Some (nth_error (CollectionBase._indexes c) 0) /\
     (dbg = true -> b = hasPKPattern idx)) /\
  (forall pkIndex : IndexDetails,
     nth_error (CollectionBase._indexes c) 0 = Some pkIndex ->
     idx <> pkIndex -> hasPKPattern idx = true ->
     IndexLookup.isPKIndex same hasPKPattern true c idx = None /\
     (hasPKPattern pkIndex = true ->
      IndexLookup.isPKIndex same hasPKPattern false c idx = Some (Some false))).
Proof.
  intros Hsame. split.
  - intros b. unfold IndexLookup.isPKIndex, IndexLookup.getPKIndex, vector_at.
    destruct (nth_error (CollectionBase._indexes c) 0) as [pkIndex |] eqn:E0;
      [| discriminate].
    destruct (dassert dbg (hasPKPattern pkIndex)) as [[] |]; [| discriminate].
    destruct (dassert dbg (Bool.eqb (same idx pkIndex) (hasPKPattern idx)))
      as [[] |] eqn:Ed; [| discriminate].
    intros [= <-]. split; [| split; [reflexivity |]].
    + rewrite Hsame. split; [intros -> | intros [= ->]]; reflexivity.
    + intros ->. cbn [dassert] in Ed. apply verify_Some in Ed.
      now apply Bool.eqb_prop.
  - intros pkIndex E0 Hne Hpat.
    assert (Hs : same idx pkIndex = false).
    { destruct (same idx pkIndex) eqn:E; [| reflexivity].
      apply Hsame in E. contradiction. }
    unfold IndexLookup.isPKIndex, IndexLookup.getPKIndex, vector_at.
    rewrite E0. cbn [dassert]. split.
    + destruct (hasPKPattern pkIndex); cbn [verify]; [| reflexivity].
      now rewrite Hs, Hpat.
    + intros _. now rewrite Hs.
Qed.

Lemma isPKIndex_spec_witness :
  IndexLookup.isPKIndex Nat.eqb (Nat.eqb 10) true three_indexes 10%nat =
    Some (Some true) /\
  IndexLookup.isPKIndex Nat.eqb (Nat.eqb 10) true three_indexes 20%nat =
    Some (Some false) /\
  nth_error (CollectionBase._indexes three_indexes) 0 = Some 10%nat /\
  IndexLookup.isPKIndex Nat.eqb (fun d => Nat.leb d 20) true three_indexes 20%nat =
    None.
Proof.
  split; [reflexivity |]. split; [reflexivity |]. split; [reflexivity |].
  refine (proj1 (proj2 (isPKIndex_spec Nat.eqb (fun d => Nat.leb d 20) true
                          three_indexes 20%nat Nat_eqb_same)
                   10%nat eq_refl _ eq_refl)).
  discriminate.
Defined.

(** ** Multikey bits and statistics *)

Lemma land_pow2_eqb (a i : Z) :
  0 <= i -> (Z.land a (2 ^ i) =? 0) = negb (Z.testbit a i).
Proof.
  intros Hi. destruct (Z.testbit a i) eqn:Hb; cbn [negb].
  - apply Z.eqb_neq. intros H0.
    assert (Ht : Z.testbit (Z.land a (2 ^ i)) i = true)
      by (rewrite Z.land_spec, Hb, Z.pow2_bits_true by lia; reflexivity).
    rewrite H0, Z.bits_0 in Ht. discriminate.
  - apply Z.eqb_eq, Z.bits_inj'. intros n Hn.
    rewrite Z.land_spec, Z.bits_0, Z.pow2_bits_eqb by lia.
    destruct (Z.eqb_spec i n) as [<- | _]; [now rewrite Hb | apply andb_false_r].
Qed.

(** X17. For every index number from 0 to 63, [isMultikey(i)] is bit [i]
    of [_multiKeyIndexBits]; the shift in it is defined for every index
    number that [idx] accepts, [NIndexesMax] being the width of the
    mask. *)
Theorem isMultikey_spec (multiKeyIndexBits : u64) (i : int) :
  (0 <= word.signed i < 64 ->
   isMultikey multiKeyIndexBits i =
     Some (Z.testbit (word.unsigned multiKeyIndexBits) (word.signed i))) /\
  (forall (IndexDetails : Type) (c : CollectionBase.t IndexDetails)
          (d : IndexDetails),
     CollectionBase.idx c i = Some (Some d) ->
     isMultikey multiKeyIndexBits i =
       Some (Z.testbit (word.unsigned multiKeyIndexBits) (word.signed i))).
Proof.
  assert (H : 0 <= word.signed i < 64 ->
              isMultikey multiKeyIndexBits i =
                Some (Z.testbit (word.unsigned multiKeyIndexBits) (word.signed i))).
  { intros Hi. unfold isMultikey.
    replace (0 <=? word.signed i) with true by (symmetry; apply Z.leb_le; lia).
    replace (word.signed i <? 64) with true by (symmetry; apply Z.ltb_lt; lia).
    cbn [andb]. f_equal.
    assert (Hp : 0 < 2 ^ word.signed i < 2 ^ 64)
      by (split; [apply Z.pow_pos_nonneg | apply Z.pow_lt_mono_r]; lia).
    rewrite word.unsigned_eqb, word.unsigned_and_nowrap. unfold U64.
    rewrite word.unsigned_slu
      by (rewrite word.unsigned_of_Z_nowrap; lia).
    rewrite word.unsigned_of_Z_1, word.unsigned_of_Z_0.
    rewrite (word.unsigned_of_Z_nowrap (word.signed i)) by lia.
    unfold word.wrap. rewrite Z.shiftl_1_l, Z.mod_small by lia.
    rewrite land_pow2_eqb by lia. apply negb_involutive. }
  split; [exact H |].
  intros IndexDetails c d Hidx. apply H. now apply (idx_elim c i d).
Qed.

Lemma isMultikey_spec_witness :
  0 <= word.signed (Int 2 : int) < 64 /\
  isMultikey (U64 5) (Int 2) = Some true /\
  isMultikey (U64 5) (Int 1) = Some false /\
  isMultikey (U64 5) (Int 64) = None.
Proof.
  assert (Hi : 0 <= word.signed (Int 2 : int) < 64) by (vm_compute; split; congruence).
  split; [exact Hi |]. split; [| split; reflexivity].
  rewrite (proj1 (isMultikey_spec (U64 5) (Int 2)) Hi). reflexivity.
Defined.

Ltac stats_fields :=
  cbn [Stats.plus_assign Stats.Stats Stats.count Stats.size Stats.storageSize
       Stats.nIndexes Stats.indexSize Stats.indexStorageSize].

Lemma Stats_ext (a b : Stats.t) :
  Stats.count a = Stats.count b -> Stats.size a = Stats.size b ->
  Stats.storageSize a = Stats.storageSize b ->
  Stats.nIndexes a = Stats.nIndexes b ->
  Stats.indexSize a = Stats.indexSize b ->
  Stats.indexStorageSize a = Stats.indexStorageSize b -> a = b.
Proof. destruct a, b; stats_fields; congruence. Qed.

Lemma plus_assign_assoc (a b c : Stats.t) :
  Stats.plus_assign (Stats.plus_assign a b) c =
  Stats.plus_assign a (Stats.plus_assign b c).
Proof. apply Stats_ext; stats_fields; symmetry; apply word.add_assoc. Qed.

Lemma plus_assign_comm (a b : Stats.t) :
  Stats.plus_assign a b = Stats.plus_assign b a.
Proof. apply Stats_ext; stats_fields; apply word.add_comm. Qed.

Lemma fold_plus_assign (l : list Stats.t) (a b : Stats.t) :
  fold_left Stats.plus_assign l (Stats.plus_assign a b) =
  Stats.plus_assign a (fold_left Stats.plus_assign l b).
Proof.
  revert b. induction l as [| x l IH]; intros b; cbn [fold_left]; [reflexivity |].
  now rewrite plus_assign_assoc, IH.
Qed.

(** X18. Accumulating statistics with [+=] starting from [Stats()] does
    not depend on the order: [Stats()] is neutral on either side, [+=] is
    associative and commutative (every field is a sum in [uint64_t]), and
    the total over a list of statistics is the same for every arrangement
    of the list. *)
Theorem Stats_accumulation :
  (forall s : Stats.t,
     Stats.plus_assign s Stats.Stats = s /\ Stats.plus_assign Stats.Stats s = s) /\
  (forall a b c : Stats.t,
     Stats.plus_assign (Stats.plus_assign a b) c =
     Stats.plus_assign a (Stats.plus_assign b c)) /\
  (forall a b : Stats.t, Stats.plus_assign a b = Stats.plus_assign b a) /\
  (forall l l' : list Stats.t,
     Permutation l l' ->
     fold_left Stats.plus_assign l Stats.Stats =
     fold_left Stats.plus_assign l' Stats.Stats).
Proof.
  split; [| split; [exact plus_assign_assoc | split; [exact plus_assign_comm |]]].
  - intros s. split; apply Stats_ext; stats_fields; unfold U64;
      first [apply word.add_0_r | apply word.add_0_l].
  - intros l l' Hperm. generalize Stats.Stats.
    induction Hperm as [| x l l' _ IH | x y l | l l' l'' _ IH1 _ IH2]; intros s;
      cbn [fold_left].
    + reflexivity.
    + apply IH.
    + f_equal. rewrite !plus_assign_assoc. f_equal. apply plus_assign_comm.
    + now rewrite IH1.
Qed.

Lemma Stats_accumulation_witness :
  Permutation
    [Stats.Build (U64 1) (U64 2) (U64 3) (U64 1) (U64 0) (U64 0);
     Stats.Build (U64 UINT64_MAX) (U64 5) (U64 6) (U64 2) (U64 7) (U64 8)]
    [Stats.Build (U64 UINT64_MAX) (U64 5) (U64 6) (U64 2) (U64 7) (U64 8);
     Stats.Build (U64 1) (U64 2) (U64 3) (U64 1) (U64 0) (U64 0)] /\
  fold_left Stats.plus_assign
    [Stats.Build (U64 1) (U64 2) (U64 3) (U64 1) (U64 0) (U64 0);
     Stats.Build (U64 UINT64_MAX) (U64 5) (U64 6) (U64 2) (U64 7) (U64 8)]
    Stats.Stats =
  fold_left Stats.plus_assign
    [Stats.Build (U64 UINT64_MAX) (U64 5) (U64 6) (U64 2) (U64 7) (U64 8);
     Stats.Build (U64 1) (U64 2) (U64 3) (U64 1) (U64 0) (U64 0)]
    Stats.Stats.
Proof.
  assert (Hp : Permutation
    [Stats.Build (U64 1) (U64 2) (U64 3) (U64 1) (U64 0) (U64 0);
     Stats.Build (U64 UINT64_MAX) (U64 5) (U64 6) (U64 2) (U64 7) (U64 8)]
    [Stats.Build (U64 UINT64_MAX) (U64 5) (U64 6) (U64 2) (U64 7) (U64 8);
     Stats.Build (U64 1) (U64 2) (U64 3) (U64 1) (U64 0) (U64 0)])
    by apply perm_swap.
  split; [exact Hp |].
  exact (proj2 (proj2 (proj2 Stats_accumulation)) _ _ Hp).
Defined.

(** ** Walking the indexes *)


